(** * cbor_lite: the CBOR header codec and its typed operations

    A shallow embedding of [src/cbor_lite.py].  Python integers are [Z],
    a [bytes]/[bytearray] is a [list byte], and the two classes
    [CBOREncoder] and [CBORDecoder] become records threaded through a
    small state-and-exception monad: a raised exception leaves the
    mutations made before it in place, as in the source. *)

From Stdlib Require Import ZArith List Lia Bool.
From Stdlib Require Import Strings.Byte.
Import ListNotations.
Open Scope Z_scope.

(** ** Exceptions

    Every [raise Exception("...")] of the source, by message, plus the
    built-in exceptions that the modelled built-ins raise. *)
Inductive exn : Type :=
| NotEnoughInput
| EncodingNotMinimal
| BadAdditionalValue
| UnsupportedByteLength (length : Z)
| ExpectedUnsignedInteger (found : Z)
| ExpectedNegativeInteger (found : Z)
| ExpectedArray (found : Z)
| ExpectedMap (found : Z)
| NotAByteString
| NotATextString
| NotCBOREncodedData
| ValueError
| TypeError
| IndexError
| UnicodeEncodeError.

Inductive result (A : Type) : Type :=
| Ok (a : A)
| Raise (e : exn).
Arguments Ok {A} a.
Arguments Raise {A} e.

(** ** The state-and-exception monad *)
Section StateExn.
Context {S : Type}.

Definition M (A : Type) : Type := S -> result A * S.

Definition ret {A} (a : A) : M A := fun s => (Ok a, s).

Definition raise {A} (e : exn) : M A := fun s => (Raise e, s).

Definition bind {A B} (m : M A) (k : A -> M B) : M B :=
  fun s =>
    match m s with
    | (Ok a, s') => k a s'
    | (Raise e, s') => (Raise e, s')
    end.

Definition get : M S := fun s => (Ok s, s).
End StateExn.
Arguments M S A : clear implicits.

Notation "x <- m ;; k" := (bind m (fun x => k))
  (at level 100, m at next level, right associativity).
Notation "' pat <- m ;; k" := (bind m (fun x => match x with pat => k end))
  (at level 100, pat pattern, m at next level, right associativity).
Notation "m ;;; k" := (bind m (fun _ => k))
  (at level 100, right associativity).

(** ** Python built-ins used by the source *)

Definition byte_to_Z (b : byte) : Z := Z.of_N (Byte.to_N b).

(** An integer is a byte exactly when it is in [range(256)]. *)
Definition byte_of_Z (z : Z) : option byte :=
  if z <? 0 then None else Byte.of_N (Z.to_N z).

Definition len {A} (l : list A) : Z := Z.of_nat (length l).

(** [int.bit_length()]: the number of bits of the absolute value. *)
Definition bit_length (v : Z) : Z :=
  if v =? 0 then 0 else Z.log2 (Z.abs v) + 1.

(** A truth test on an integer: non-zero is true. *)
Definition truthy (z : Z) : bool := negb (z =? 0).

(** [l[i]] with Python's negative indices; [None] is [IndexError]. *)
Definition py_index (l : list byte) (i : Z) : option byte :=
  if (0 <=? i) && (i <? len l) then nth_error l (Z.to_nat i)
  else if (- len l <=? i) && (i <? 0) then nth_error l (Z.to_nat (len l + i))
  else None.

(** A slice bound, as [slice.indices] adjusts it for step 1. *)
Definition py_slice_bound (n i : Z) : Z :=
  Z.max 0 (Z.min n (if i <? 0 then i + n else i)).

(** [l[lo:hi]]. *)
Definition py_slice (l : list byte) (lo hi : Z) : list byte :=
  let lo' := py_slice_bound (len l) lo in
  let hi' := py_slice_bound (len l) hi in
  firstn (Z.to_nat (hi' - lo')) (skipn (Z.to_nat lo') l).

(** A [str] is its sequence of code points. *)
Definition pystr : Type := list Z.

Definition utf8_code_point (c : Z) : option (list Z) :=
  if (c <? 0) || (0x10FFFF <? c) then None
  else if c <? 0x80 then Some [c]
  else if c <? 0x800 then Some [0xC0 + c / 64; 0x80 + c mod 64]
  else if (0xD800 <=? c) && (c <=? 0xDFFF) then None
  else if c <? 0x10000 then
    Some [0xE0 + c / 4096; 0x80 + (c / 64) mod 64; 0x80 + c mod 64]
  else
    Some [0xF0 + c / 262144; 0x80 + (c / 4096) mod 64;
          0x80 + (c / 64) mod 64; 0x80 + c mod 64].

Fixpoint bytes_of_ints (l : list Z) : option (list byte) :=
  match l with
  | [] => Some []
  | z :: r =>
      match byte_of_Z z, bytes_of_ints r with
      | Some b, Some bs => Some (b :: bs)
      | _, _ => None
      end
  end.

(** [bytes(value, 'utf8')]; [None] is [UnicodeEncodeError]. *)
Fixpoint utf8 (s : pystr) : option (list byte) :=
  match s with
  | [] => Some []
  | c :: r =>
      match utf8_code_point c, utf8 r with
      | Some cs, Some bs =>
          match bytes_of_ints cs with
          | Some hd => Some (hd ++ bs)
          | None => None
          end
      | _, _ => None
      end
  end.

(** What [bytearray.append] is handed in the source: an integer, or a
    [bytes] object. *)
Inductive pyarg : Type :=
| PInt (z : Z)
| PBytes (bs : list byte).

(** ** Constant tables *)
Module Flag.
Definition none : Z := 0.
Definition requireMinimalEncoding : Z := Z.shiftl 1 0.
End Flag.

Module Tag.
Module Major.
Definition unsignedInteger : Z := 0.
Definition negativeInteger : Z := Z.shiftl 1 5.
Definition byteString : Z := Z.shiftl 2 5.
Definition textString : Z := Z.shiftl 3 5.
Definition array : Z := Z.shiftl 4 5.
Definition map : Z := Z.shiftl 5 5.
Definition semantic : Z := Z.shiftl 6 5.
Definition floatingPoint : Z := Z.shiftl 7 5.
Definition simple : Z := Z.shiftl 7 5.
Definition mask : Z := 0xe0.
End Major.
Module Minor.
Definition length1 : Z := 24.
Definition length2 : Z := 25.
Definition length4 : Z := 26.
Definition length8 : Z := 27.
Definition cborEncodedData : Z := 24.
Definition mask : Z := 0x1f.
End Minor.
End Tag.

(** The eight major tags, as header-position values. *)
Definition major_tags : list Z :=
  [Tag.Major.unsignedInteger; Tag.Major.negativeInteger; Tag.Major.byteString;
   Tag.Major.textString; Tag.Major.array; Tag.Major.map; Tag.Major.semantic;
   Tag.Major.simple].

(** ** Byte-length calculator *)
Definition get_byte_length (value : Z) : Z :=
  if value <? 24 then 0
  else (bit_length value + 7) / 8.

(** ** Encoder *)
Record CBOREncoder : Type := mkEncoder { enc_buf : list byte }.

Definition Enc : Type -> Type := M CBOREncoder.

Definition new_encoder : CBOREncoder := mkEncoder [].

Definition get_bytes (e : CBOREncoder) : list byte := enc_buf e.

(** [self.buf.append(x)]: [ValueError] outside [range(256)], [TypeError]
    for anything that is not an integer. *)
Definition bytearray_append (x : pyarg) : Enc unit :=
  fun e =>
    match x with
    | PInt z =>
        match byte_of_Z z with
        | Some b => (Ok tt, mkEncoder (enc_buf e ++ [b]))
        | None => (Raise ValueError, e)
        end
    | PBytes _ => (Raise TypeError, e)
    end.

(** [self.buf += value]. *)
Definition bytearray_extend (value : list byte) : Enc unit :=
  fun e => (Ok tt, mkEncoder (enc_buf e ++ value)).

Definition append_int (z : Z) : Enc unit := bytearray_append (PInt z).

Definition encodeTagAndAdditional (tag additional : Z) : Enc Z :=
  append_int (tag + additional) ;;;
  ret 1.

Definition encodeTagAndValue (tag value : Z) : Enc Z :=
  let length := get_byte_length value in
  (if (5 <=? length) && (length <=? 8) then
     encodeTagAndAdditional tag Tag.Minor.length8 ;;;
     append_int (Z.land (Z.shiftr value 56) 0xff) ;;;
     append_int (Z.land (Z.shiftr value 48) 0xff) ;;;
     append_int (Z.land (Z.shiftr value 40) 0xff) ;;;
     append_int (Z.land (Z.shiftr value 32) 0xff) ;;;
     append_int (Z.land (Z.shiftr value 24) 0xff) ;;;
     append_int (Z.land (Z.shiftr value 16) 0xff) ;;;
     append_int (Z.land (Z.shiftr value 8) 0xff) ;;;
     append_int (Z.land value 0xff)
   else if (length =? 3) || (length =? 4) then
     encodeTagAndAdditional tag Tag.Minor.length4 ;;;
     append_int (Z.land (Z.shiftr value 24) 0xff) ;;;
     append_int (Z.land (Z.shiftr value 16) 0xff) ;;;
     append_int (Z.land (Z.shiftr value 8) 0xff) ;;;
     append_int (Z.land value 0xff)
   else if length =? 2 then
     encodeTagAndAdditional tag Tag.Minor.length2 ;;;
     append_int (Z.land (Z.shiftr value 8) 0xff) ;;;
     append_int (Z.land value 0xff)
   else if length =? 1 then
     encodeTagAndAdditional tag Tag.Minor.length1 ;;;
     append_int (Z.land value 0xff)
   else if length =? 0 then
     encodeTagAndAdditional tag value ;;;
     ret tt
   else
     raise (UnsupportedByteLength length)) ;;;
  let encoded_size := 1 + length in
  ret encoded_size.

Definition encodeBytes (value : list byte) : Enc Z :=
  length <- encodeTagAndValue Tag.Major.byteString (len value) ;;
  bytearray_extend value ;;;
  ret (length + len value).

Definition encodeEncodedBytes (value : list byte) : Enc Z :=
  length <- encodeTagAndValue Tag.Major.semantic Tag.Minor.cborEncodedData ;;
  inner <- encodeBytes value ;;
  ret (length + inner).

(** [bytes(value, 'utf8')] is evaluated first, then handed to
    [bytearray.append]. *)
Definition encodeText (value : pystr) : Enc Z :=
  let str_len := len value in
  length <- encodeTagAndValue Tag.Major.textString str_len ;;
  match utf8 value with
  | Some bs => bytearray_append (PBytes bs)
  | None => raise UnicodeEncodeError
  end ;;;
  ret (length + str_len).

Definition encodeArraySize (value : Z) : Enc Z :=
  encodeTagAndValue Tag.Major.array value.

Definition encodeMapSize (value : Z) : Enc Z :=
  encodeTagAndValue Tag.Major.map value.

(** ** Decoder *)
Record CBORDecoder : Type := mkDecoder { dec_buf : list byte; dec_pos : Z }.

Definition Dec : Type -> Type := M CBORDecoder.

Definition new_decoder (buf : list byte) : CBORDecoder := mkDecoder buf 0.

(** [len(self.buf)]. *)
Definition buf_len : Dec Z := fun d => (Ok (len (dec_buf d)), d).

(** [self.pos]. *)
Definition get_pos : Dec Z := fun d => (Ok (dec_pos d), d).

(** [self.buf[self.pos]]. *)
Definition buf_at_pos : Dec Z :=
  fun d =>
    match py_index (dec_buf d) (dec_pos d) with
    | Some b => (Ok (byte_to_Z b), d)
    | None => (Raise IndexError, d)
    end.

(** [self.pos += n]. *)
Definition advance (n : Z) : Dec unit :=
  fun d => (Ok tt, mkDecoder (dec_buf d) (dec_pos d + n)).

Definition decodeTagAndAdditional (flags : Z) : Dec (Z * Z * Z) :=
  p <- get_pos ;;
  n <- buf_len ;;
  if p =? n then raise NotEnoughInput
  else
    octet <- buf_at_pos ;;
    advance 1 ;;;
    let tag := Z.land octet Tag.Major.mask in
    let additional := Z.land octet Tag.Minor.mask in
    ret (tag, additional, 1).

(** [for shift in shifts: value |= self.buf[self.pos] << shift; self.pos += 1] *)
Fixpoint read_shifts (shifts : list Z) (value : Z) : Dec Z :=
  match shifts with
  | [] => ret value
  | shift :: rest =>
      b <- buf_at_pos ;;
      advance 1 ;;;
      read_shifts rest (Z.lor value (Z.shiftl b shift))
  end.

(** The tail shared by the four multi-byte branches: the minimality
    check, then [return (tag, value, self.pos)]. *)
Definition check_and_return (flags tag value : Z) : Dec (Z * Z * Z) :=
  if truthy (Z.land flags Flag.requireMinimalEncoding) && (value =? 0)
  then raise EncodingNotMinimal
  else
    p <- get_pos ;;
    ret (tag, value, p).

Definition decodeTagAndValue (flags : Z) : Dec (Z * Z * Z) :=
  end_ <- buf_len ;;
  p0 <- get_pos ;;
  if p0 =? end_ then raise NotEnoughInput
  else
    '(tag, additional, length) <- decodeTagAndAdditional flags ;;
    if additional <? Tag.Minor.length1 then
      let value := additional in
      ret (tag, value, length)
    else
      let value := 0 in
      if additional =? Tag.Minor.length8 then
        p <- get_pos ;;
        if end_ - p <? 8 then raise NotEnoughInput
        else
          value <- read_shifts [56; 48; 40; 32; 24; 16; 8; 0] value ;;
          check_and_return flags tag value
      else if additional =? Tag.Minor.length4 then
        p <- get_pos ;;
        if end_ - p <? 4 then raise NotEnoughInput
        else
          value <- read_shifts [24; 16; 8; 0] value ;;
          check_and_return flags tag value
      else if additional =? Tag.Minor.length2 then
        p <- get_pos ;;
        if end_ - p <? 2 then raise NotEnoughInput
        else
          value <- read_shifts [8; 0] value ;;
          check_and_return flags tag value
      else if additional =? Tag.Minor.length1 then
        p <- get_pos ;;
        if end_ - p <? 1 then raise NotEnoughInput
        else
          b <- buf_at_pos ;;
          let value := Z.lor value b in
          advance 1 ;;;
          check_and_return flags tag value
      else raise BadAdditionalValue.

Definition decodeUnsigned (flags : Z) : Dec (Z * Z) :=
  '(tag, value, length) <- decodeTagAndValue flags ;;
  if negb (tag =? Tag.Major.unsignedInteger)
  then raise (ExpectedUnsignedInteger tag)
  else ret (value, length).

Definition decodeNegative (flags : Z) : Dec (Z * Z) :=
  '(tag, value, length) <- decodeTagAndValue flags ;;
  if negb (tag =? Tag.Major.negativeInteger)
  then raise (ExpectedNegativeInteger tag)
  else ret (value, length).

(** The function has no [else]: for any other tag it falls off its end
    and returns Python's [None], here the [None] of the option. *)
Definition decodeInteger (flags : Z) : Dec (option (Z * Z)) :=
  '(tag, value, length) <- decodeTagAndValue flags ;;
  if tag =? Tag.Major.unsignedInteger then ret (Some (value, length))
  else if tag =? Tag.Major.negativeInteger then ret (Some (-1 - value, length))
  else ret None.

(** The body shared, word for word, by [decodeBytes] and [decodeText]
    after their tag test. *)
Definition read_payload (byte_length size_length : Z) : Dec (list byte * Z) :=
  end_ <- buf_len ;;
  p <- get_pos ;;
  if end_ - p <? byte_length then raise NotEnoughInput
  else
    d <- get ;;
    let value := py_slice (dec_buf d) p (p + byte_length) in
    advance byte_length ;;;
    ret (value, size_length + byte_length).

Definition decodeBytes (flags : Z) : Dec (list byte * Z) :=
  '(tag, byte_length, size_length) <- decodeTagAndValue flags ;;
  if negb (tag =? Tag.Major.byteString) then raise NotAByteString
  else read_payload byte_length size_length.

Definition decodeEncodedBytes (flags : Z) : Dec (list byte * Z) :=
  '(tag, minor_tag, tag_length) <- decodeTagAndValue flags ;;
  if negb (tag =? Tag.Major.semantic)
     || negb (minor_tag =? Tag.Minor.cborEncodedData)
  then raise NotCBOREncodedData
  else
    '(value, length) <- decodeBytes flags ;;
    ret (value, tag_length + length).

Definition decodeText (flags : Z) : Dec (list byte * Z) :=
  '(tag, byte_length, size_length) <- decodeTagAndValue flags ;;
  if negb (tag =? Tag.Major.textString) then raise NotATextString
  else read_payload byte_length size_length.

Definition decodeArraySize (flags : Z) : Dec (Z * Z) :=
  '(tag, value, length) <- decodeTagAndValue flags ;;
  if negb (tag =? Tag.Major.array) then raise (ExpectedArray tag)
  else ret (value, length).

(** The source compares with [Tag.Major.mask]. *)
Definition decodeMapSize (flags : Z) : Dec (Z * Z) :=
  '(tag, value, length) <- decodeTagAndValue flags ;;
  if negb (tag =? Tag.Major.mask) then raise (ExpectedMap tag)
  else ret (value, length).

(** ** Running the two classes *)

(** Run an encode call on a fresh encoder. *)
Definition encode_fresh {A} (m : Enc A) : result A * list byte :=
  let '(r, e) := m new_encoder in (r, get_bytes e).

(** Run a decode call on a fresh decoder over [buf]. *)
Definition decode_fresh {A} (m : Dec A) (buf : list byte) : result A * Z :=
  let '(r, d) := m (new_decoder buf) in (r, dec_pos d).

(** Run a decode call with the cursor at [pos]. *)
Definition decode_at {A} (m : Dec A) (buf : list byte) (pos : Z)
  : result A * Z :=
  let '(r, d) := m (mkDecoder buf pos) in (r, dec_pos d).

(** [bytes] literals for examples. *)
Definition bytes_of (l : list Z) : list byte :=
  match bytes_of_ints l with Some bs => bs | None => [] end.

(** ** Specification vocabulary *)

(** The unsigned big-endian value of a byte field. *)
Fixpoint be_value (field : list byte) : Z :=
  match field with
  | [] => 0
  | b :: rest => byte_to_Z b * 2 ^ (8 * len rest) + be_value rest
  end.

(** The read width selected by a minor indicator: 24, 25, 26, 27 select
    1, 2, 4, 8 bytes. *)
Definition field_width (additional : Z) : Z :=
  if additional =? 24 then 1
  else if additional =? 25 then 2
  else if additional =? 26 then 4
  else if additional =? 27 then 8
  else 0.

(** The widths a header can carry. *)
Definition widths : list Z := [0; 1; 2; 4; 8].

(** Width [w] can hold magnitude [v]: width 0 is the inline form, which
    holds the magnitudes below 24; [w] bytes hold those below [2^(8w)]. *)
Definition holds (w v : Z) : Prop :=
  if w =? 0 then v < 24 else v < 2 ^ (8 * w).

(** The value accumulated by [read_shifts], without the cursor. *)
Fixpoint fold_lor (value : Z) (field : list byte) (shifts : list Z) : Z :=
  match field, shifts with
  | b :: field', shift :: shifts' =>
      fold_lor (Z.lor value (Z.shiftl (byte_to_Z b) shift)) field' shifts'
  | _, _ => value
  end.

(** The shift list of a [k]-byte read: [8(k-1); ...; 8; 0]. *)
Fixpoint shifts_desc (k : nat) : list Z :=
  match k with
  | O => []
  | S k' => 8 * Z.of_nat k' :: shifts_desc k'
  end.

(** The byte for an integer in [range(256)]. *)
Definition byte_of (z : Z) : byte :=
  match byte_of_Z z with Some b => b | None => x00 end.

(** The [k] low bytes of [v], most significant first, as the encoder's
    shift-and-mask lines produce them. *)
Definition be_bytes (k : nat) (v : Z) : list byte :=
  List.map (fun shift => byte_of (Z.land (Z.shiftr v shift) 0xff))
           (shifts_desc k).

(** The number of magnitude bytes each branch of [encodeTagAndValue]
    appends after the header octet, by computed length. *)
Definition emitted_width (length : Z) : Z :=
  if (5 <=? length) && (length <=? 8) then 8
  else if (length =? 3) || (length =? 4) then 4
  else length.

(** The minor indicator announcing a field of [w] bytes. *)
Definition indicator (w : Z) : Z :=
  if w =? 8 then Tag.Minor.length8
  else if w =? 4 then Tag.Minor.length4
  else if w =? 2 then Tag.Minor.length2
  else Tag.Minor.length1.

(** The bytes [encodeTagAndValue] appends for a magnitude below [2^64]. *)
Definition header_bytes (tag value : Z) : list byte :=
  let w := emitted_width (get_byte_length value) in
  if w =? 0 then [byte_of (tag + value)]
  else byte_of (tag + indicator w) :: be_bytes (Z.to_nat w) value.

(** The minimality test of the four field-reading branches. *)
Definition minimal_check_fails (flags value : Z) : bool :=
  truthy (Z.land flags Flag.requireMinimalEncoding) && (value =? 0).

(** A call of [decodeTagAndValue] on [buf] with the cursor at [pos]
    reads a field of exactly [w] big-endian bytes after the header
    octet: with fewer than [w] bytes left it raises "Not enough input"
    having consumed the header octet only; otherwise the cursor ends
    [1 + w] bytes on, the magnitude is the big-endian value of the [w]
    bytes after the header octet, and the call returns it with [tag]
    and the cursor unless the minimality test rejects it. *)
Definition reads_field (flags : Z) (buf : list byte) (pos tag w : Z)
  : Prop :=
  let run := decode_at (decodeTagAndValue flags) buf pos in
  let value := be_value (py_slice buf (pos + 1) (pos + 1 + w)) in
  (len buf - (pos + 1) < w -> run = (Raise NotEnoughInput, pos + 1))
  /\ (w <= len buf - (pos + 1) ->
      run = (if minimal_check_fails flags value
             then Raise EncodingNotMinimal
             else Ok (tag, value, pos + 1 + w),
             pos + 1 + w)).

(** The magnitudes of the round-trip property. *)
Definition listed_magnitudes : list Z :=
  [0; 1; 23; 24; 255; 256; 65535; 65536; 2 ^ 32 - 1; 2 ^ 32; 2 ^ 64 - 1].

(** ** The remaining operations of the two classes *)

(** [Tag.Minor.false] and [Tag.Minor.true]. *)
Definition Minor_false : Z := 20.
Definition Minor_true : Z := 21.

Definition encodeUnsigned (value : Z) : Enc Z :=
  encodeTagAndValue Tag.Major.unsignedInteger value.

Definition encodeNegative (value : Z) : Enc Z :=
  encodeTagAndValue Tag.Major.negativeInteger value.

(** The negative branch hands [value] itself to [encodeNegative]. *)
Definition encodeInteger (value : Z) : Enc Z :=
  if value >=? 0 then encodeUnsigned value
  else encodeNegative value.

Definition encodeBool (value : bool) : Enc Z :=
  encodeTagAndValue Tag.Major.simple
                    (if value then Minor_true else Minor_false).

(** The exceptions of [decodeBool] and [decodeEncodedBytesPrefix]: those
    listed before, and three more messages. *)
Inductive exn_ext : Type :=
| Base (e : exn)
| NotABoolean
| NotSimpleBoolean
| NotByteString.

(** Either the value returned or the exception raised, with the decoder
    as the call leaves it. *)
Definition DecExt (A : Type) : Type :=
  CBORDecoder -> (A + exn_ext) * CBORDecoder.

Definition decodeBool (flags : Z) : DecExt (bool * Z) :=
  fun d =>
    match decodeTagAndValue flags d with
    | (Raise e, d') => (inr (Base e), d')
    | (Ok (tag, value, length), d') =>
        if tag =? Tag.Major.simple then
          if value =? Minor_true then (inl (true, length), d')
          else if value =? Minor_false then (inl (false, length), d')
          else (inr NotABoolean, d')
        else (inr NotSimpleBoolean, d')
    end.

Definition decodeEncodedBytesPrefix (flags : Z) : DecExt (Z * Z * Z) :=
  fun d =>
    match decodeTagAndValue flags d with
    | (Raise e, d1) => (inr (Base e), d1)
    | (Ok (tag, value, length1), d1) =>
        if negb (tag =? Tag.Major.semantic)
           || negb (value =? Tag.Minor.cborEncodedData)
        then (inr (Base NotCBOREncodedData), d1)
        else
          match decodeTagAndValue flags d1 with
          | (Raise e, d2) => (inr (Base e), d2)
          | (Ok (tag, value, length2), d2) =>
              if negb (tag =? Tag.Major.byteString)
              then (inr NotByteString, d2)
              else (inl (tag, value, length1 + length2), d2)
          end
    end.

(** ** Vocabulary of the further properties *)

(** The cursor is inside the buffer or at its end. *)
Definition cursor_ok (d : CBORDecoder) : Prop :=
  0 <= dec_pos d <= len (dec_buf d).

(** From [d] to [d']: the same buffer, the cursor not moved back and
    still inside the buffer. *)
Definition steps_forward (d d' : CBORDecoder) : Prop :=
  dec_buf d' = dec_buf d
  /\ dec_pos d <= dec_pos d' <= len (dec_buf d).

(** A decode call steps forward from every good cursor, and what it
    returns satisfies [Q]. *)
Definition dec_post {A} (m : Dec A) (Q : A -> Prop) : Prop :=
  forall d : CBORDecoder,
    cursor_ok d ->
    steps_forward d (snd (m d))
    /\ (forall a, fst (m d) = Ok a -> Q a).

(** What a decoded header can be: one of the eight major tags and a
    magnitude that fits eight bytes. *)
Definition header_ok (h : Z * Z * Z) : Prop :=
  let '(tag, value, _) := h in
  In tag major_tags /\ 0 <= value < 2 ^ 64.


(** * Basic facts *)

Section Bytes.

Lemma byte_to_Z_range (b : byte) : 0 <= byte_to_Z b < 256.
Proof.
  unfold byte_to_Z. pose proof (Byte.to_N_bounded b). lia.
Qed.

Lemma byte_of_to_Z (b : byte) : byte_of_Z (byte_to_Z b) = Some b.
Proof.
  unfold byte_of_Z, byte_to_Z.
  destruct (Z.ltb_spec (Z.of_N (Byte.to_N b)) 0); [lia|].
  rewrite N2Z.id. apply Byte.of_to_N.
Qed.

Lemma byte_of_Z_some (z : Z) :
  0 <= z < 256 -> exists b, byte_of_Z z = Some b /\ byte_to_Z b = z.
Proof.
  intros Hz. unfold byte_of_Z, byte_to_Z.
  destruct (Z.ltb_spec z 0); [lia|].
  destruct (Byte.of_N (Z.to_N z)) as [b|] eqn:E.
  - exists b. split; [reflexivity|].
    apply Byte.to_of_N in E. rewrite E. lia.
  - apply Byte.of_N_None_iff in E. lia.
Qed.

Lemma land_ff_range (x : Z) : 0 <= Z.land x 0xff < 256.
Proof.
  change 0xff with (Z.ones 8). rewrite Z.land_ones by lia.
  change (2 ^ 8) with 256. apply Z.mod_pos_bound. lia.
Qed.

Lemma len_app {A} (l1 l2 : list A) : len (l1 ++ l2) = len l1 + len l2.
Proof. unfold len. rewrite length_app. lia. Qed.

Lemma len_cons {A} (a : A) (l : list A) : len (a :: l) = 1 + len l.
Proof. unfold len. simpl length. lia. Qed.

Lemma len_nonneg {A} (l : list A) : 0 <= len l.
Proof. unfold len. lia. Qed.

Lemma py_index_middle (pre : list byte) (b : byte) (rest : list byte) :
  py_index (pre ++ b :: rest) (len pre) = Some b.
Proof.
  unfold py_index. rewrite len_app, len_cons.
  pose proof (len_nonneg pre). pose proof (len_nonneg rest).
  destruct (Z.leb_spec 0 (len pre)); [|lia].
  destruct (Z.ltb_spec (len pre) (len pre + (1 + len rest))); [|lia].
  simpl andb. unfold len. rewrite Nat2Z.id.
  rewrite nth_error_app2 by lia.
  rewrite Nat.sub_diag. reflexivity.
Qed.

Lemma py_slice_middle (pre mid rest : list byte) :
  py_slice (pre ++ mid ++ rest) (len pre) (len pre + len mid) = mid.
Proof.
  unfold py_slice, py_slice_bound. rewrite !len_app.
  pose proof (len_nonneg pre). pose proof (len_nonneg mid).
  pose proof (len_nonneg rest).
  destruct (Z.ltb_spec (len pre) 0); [lia|].
  destruct (Z.ltb_spec (len pre + len mid) 0); [lia|].
  replace (Z.max 0 (Z.min (len pre + (len mid + len rest)) (len pre)))
    with (len pre) by lia.
  replace (Z.max 0 (Z.min (len pre + (len mid + len rest))
                          (len pre + len mid)))
    with (len pre + len mid) by lia.
  replace (len pre + len mid - len pre) with (len mid) by lia.
  unfold len. rewrite !Nat2Z.id.
  rewrite skipn_app, skipn_all, Nat.sub_diag. simpl.
  rewrite firstn_app, firstn_all, Nat.sub_diag. simpl.
  apply app_nil_r.
Qed.

End Bytes.

Section BigEndian.

Lemma lor_disjoint (a n c : Z) :
  0 <= n -> 0 <= c < 2 ^ n -> Z.lor (a * 2 ^ n) c = a * 2 ^ n + c.
Proof.
  intros Hn Hc.
  assert (Hland : Z.land (a * 2 ^ n) c = 0).
  { apply Z.bits_inj'. intros i Hi.
    rewrite Z.land_spec, Z.bits_0.
    destruct (Z.lt_ge_cases i n) as [Hlt|Hge].
    - rewrite Z.mul_pow2_bits_low by lia. reflexivity.
    - destruct (Z.eq_dec c 0) as [->|Hc0].
      + rewrite Z.bits_0. apply andb_false_r.
      + rewrite (Z.bits_above_log2 c i); [apply andb_false_r|lia|].
        apply Z.lt_le_trans with n; [|assumption].
        apply Z.log2_lt_pow2; lia. }
  rewrite <- Z.lxor_lor by assumption.
  symmetry. apply Z.add_nocarry_lxor. assumption.
Qed.

Lemma be_value_range (field : list byte) :
  0 <= be_value field < 2 ^ (8 * len field).
Proof.
  induction field as [|b r IH]; cbn [be_value].
  - change (len (@nil byte)) with 0. simpl. lia.
  - rewrite len_cons. pose proof (byte_to_Z_range b).
    pose proof (len_nonneg r).
    replace (8 * (1 + len r)) with (8 + 8 * len r) by lia.
    rewrite Z.pow_add_r by lia. change (2 ^ 8) with 256.
    set (P := 2 ^ (8 * len r)) in *.
    assert (byte_to_Z b * P <= 255 * P)
      by (apply Z.mul_le_mono_nonneg_r; lia).
    assert (0 <= byte_to_Z b * P) by (apply Z.mul_nonneg_nonneg; lia).
    lia.
Qed.

Lemma fold_lor_be (k : nat) :
  forall (field : list byte) (u : Z),
    length field = k ->
    fold_lor (u * 2 ^ (8 * Z.of_nat k)) field (shifts_desc k)
    = u * 2 ^ (8 * Z.of_nat k) + be_value field.
Proof.
  induction k as [|k IH]; intros field u Hlen.
  - destruct field; [|discriminate]. simpl. lia.
  - destruct field as [|b r]; [discriminate|].
    injection Hlen as Hlen.
    cbn [shifts_desc fold_lor be_value].
    pose proof (byte_to_Z_range b) as Hb.
    assert (Hr : len r = Z.of_nat k) by (unfold len; lia).
    rewrite Hr.
    set (n := 8 * Z.of_nat k).
    assert (Hn : 0 <= n) by (unfold n; lia).
    replace (8 * Z.of_nat (S k)) with (8 + n) by (unfold n; lia).
    rewrite Z.pow_add_r by lia. change (2 ^ 8) with 256.
    rewrite Z.shiftl_mul_pow2 by assumption.
    assert (Hp : 0 < 2 ^ n) by (apply Z.pow_pos_nonneg; lia).
    replace (Z.lor (u * (256 * 2 ^ n)) (byte_to_Z b * 2 ^ n))
      with ((u * 256 + byte_to_Z b) * 2 ^ n).
    + unfold n. rewrite IH by assumption. fold n. lia.
    + replace (u * (256 * 2 ^ n)) with (u * (2 ^ (8 + n))).
      * rewrite lor_disjoint.
        -- rewrite Z.pow_add_r by lia. change (2 ^ 8) with 256. lia.
        -- lia.
        -- rewrite Z.pow_add_r by lia. change (2 ^ 8) with 256. nia.
      * rewrite Z.pow_add_r by lia. reflexivity.
Qed.

(** A [k]-byte read from zero yields the big-endian value. *)
Lemma fold_lor_be_0 (k : nat) (field : list byte) :
  length field = k ->
  fold_lor 0 field (shifts_desc k) = be_value field.
Proof.
  intros H. pose proof (fold_lor_be k field 0 H) as E.
  simpl in E. exact E.
Qed.

End BigEndian.

(** * The decoder's header read *)

Section HeaderDecode.

Lemma read_shifts_field (shifts : list Z) :
  forall (pre field rest : list byte) (value : Z),
    length field = length shifts ->
    read_shifts shifts value (mkDecoder (pre ++ field ++ rest) (len pre))
    = (Ok (fold_lor value field shifts),
       mkDecoder (pre ++ field ++ rest) (len pre + len field)).
Proof.
  induction shifts as [|s shifts IH]; intros pre field rest value Hlen.
  - destruct field; [|discriminate]. simpl.
    unfold ret. change (len (@nil byte)) with 0.
    rewrite Z.add_0_r. reflexivity.
  - destruct field as [|b field]; [discriminate|].
    injection Hlen as Hlen.
    simpl read_shifts. unfold bind at 1. unfold buf_at_pos.
    cbn [dec_buf dec_pos]. simpl app.
    rewrite py_index_middle.
    unfold bind at 1. unfold advance at 1. cbn [dec_buf dec_pos].
    replace (pre ++ b :: field ++ rest)
      with ((pre ++ [b]) ++ field ++ rest)
      by (rewrite <- app_assoc; reflexivity).
    replace (len pre + 1) with (len (pre ++ [b]))
      by (rewrite len_app; reflexivity).
    rewrite IH by assumption.
    cbn [fold_lor]. rewrite len_app, (len_cons b field).
    change (len [b]) with 1.
    replace (len pre + 1 + len field) with (len pre + (1 + len field))
      by lia.
    reflexivity.
Qed.

Lemma decodeTagAndAdditional_at (flags : Z) (pre : list byte) (hdr : byte)
      (rest : list byte) :
  decodeTagAndAdditional flags (mkDecoder (pre ++ hdr :: rest) (len pre))
  = (Ok (Z.land (byte_to_Z hdr) Tag.Major.mask,
         Z.land (byte_to_Z hdr) Tag.Minor.mask, 1),
     mkDecoder (pre ++ hdr :: rest) (len pre + 1)).
Proof.
  unfold decodeTagAndAdditional, bind, get_pos, buf_len, buf_at_pos,
    advance, ret. cbn [dec_buf dec_pos].
  rewrite len_app, len_cons. pose proof (len_nonneg rest).
  destruct (Z.eqb_spec (len pre) (len pre + (1 + len rest))); [lia|].
  cbn [dec_buf dec_pos]. rewrite py_index_middle. reflexivity.
Qed.

Lemma decodeTagAndAdditional_end (flags : Z) (buf : list byte) :
  decodeTagAndAdditional flags (mkDecoder buf (len buf))
  = (Raise NotEnoughInput, mkDecoder buf (len buf)).
Proof.
  unfold decodeTagAndAdditional, bind, get_pos, buf_len, raise.
  cbn [dec_buf dec_pos]. rewrite Z.eqb_refl. reflexivity.
Qed.

(** Reading a [k]-byte field that follows the header octet. *)
Lemma read_field (k : nat) (pre : list byte) (hdr : byte)
      (rest : list byte) :
  Z.of_nat k <= len rest ->
  read_shifts (shifts_desc k) 0
              (mkDecoder (pre ++ hdr :: rest) (len pre + 1))
  = (Ok (be_value (firstn k rest)),
     mkDecoder (pre ++ hdr :: rest) (len pre + 1 + Z.of_nat k)).
Proof.
  intros Hk.
  assert (Hlen : length (firstn k rest) = k).
  { apply firstn_length_le. unfold len in Hk. lia. }
  assert (Hshifts : length (shifts_desc k) = k).
  { clear. induction k; simpl; congruence. }
  rewrite <- (firstn_skipn k rest) at 1 3.
  replace (pre ++ hdr :: firstn k rest ++ skipn k rest)
    with ((pre ++ [hdr]) ++ firstn k rest ++ skipn k rest)
    by (rewrite <- app_assoc; reflexivity).
  replace (len pre + 1) with (len (pre ++ [hdr]))
    by (rewrite len_app; reflexivity).
  rewrite read_shifts_field by congruence.
  rewrite fold_lor_be_0 by assumption.
  unfold len at 2. rewrite Hlen. reflexivity.
Qed.

Lemma check_and_return_eq (flags tag value : Z) (d : CBORDecoder) :
  check_and_return flags tag value d
  = if truthy (Z.land flags Flag.requireMinimalEncoding) && (value =? 0)
    then (Raise EncodingNotMinimal, d)
    else (Ok (tag, value, dec_pos d), d).
Proof.
  unfold check_and_return.
  destruct (truthy (Z.land flags Flag.requireMinimalEncoding)
            && (value =? 0)); reflexivity.
Qed.

Lemma mask_additional_range (o : Z) :
  0 <= o -> 0 <= Z.land o Tag.Minor.mask < 32.
Proof.
  intros Ho. unfold Tag.Minor.mask. change 0x1f with (Z.ones 5).
  rewrite Z.land_ones by lia. change (2 ^ 5) with 32.
  apply Z.mod_pos_bound. lia.
Qed.

(** One of the three branches that read their field with a loop. *)
Ltac multi_byte_path k :=
  let w := eval cbv in (Z.of_nat k) in
  cbn [Z.eqb Pos.eqb];
  match goal with
  | |- context [field_width ?a] => change (field_width a) with w
  end;
  unfold bind at 1; unfold get_pos at 1; cbn [dec_buf dec_pos];
  match goal with
  | |- context [?a + (1 + ?b) - (?a + 1)] =>
      replace (a + (1 + b) - (a + 1)) with b by lia
  end;
  match goal with
  | |- context [?l <? w] =>
      destruct (Z.ltb_spec l w); [reflexivity|]
  end;
  unfold bind at 1;
  match goal with
  | |- context [read_shifts ?sh 0] =>
      change (read_shifts sh 0) with (read_shifts (shifts_desc k) 0)
  end;
  rewrite read_field by (change (Z.of_nat k) with w; lia);
  rewrite check_and_return_eq; cbn [dec_pos];
  reflexivity.

(** The whole behaviour of [decodeTagAndValue] when a header octet
    [hdr] is under the cursor. *)
Lemma decodeTagAndValue_header (flags : Z) (pre : list byte) (hdr : byte)
      (rest : list byte) :
  decodeTagAndValue flags (mkDecoder (pre ++ hdr :: rest) (len pre))
  = let buf := pre ++ hdr :: rest in
    let tag := Z.land (byte_to_Z hdr) Tag.Major.mask in
    let additional := Z.land (byte_to_Z hdr) Tag.Minor.mask in
    if additional <? 24 then
      (Ok (tag, additional, 1), mkDecoder buf (len pre + 1))
    else if 28 <=? additional then
      (Raise BadAdditionalValue, mkDecoder buf (len pre + 1))
    else
      let w := field_width additional in
      if len rest <? w then
        (Raise NotEnoughInput, mkDecoder buf (len pre + 1))
      else
        let value := be_value (firstn (Z.to_nat w) rest) in
        if truthy (Z.land flags Flag.requireMinimalEncoding)
           && (value =? 0)
        then (Raise EncodingNotMinimal, mkDecoder buf (len pre + 1 + w))
        else (Ok (tag, value, len pre + 1 + w),
              mkDecoder buf (len pre + 1 + w)).
Proof.
  cbv zeta.
  unfold decodeTagAndValue.
  unfold bind at 1. unfold buf_len at 1. cbn [dec_buf dec_pos].
  unfold bind at 1. unfold get_pos at 1. cbn [dec_buf dec_pos].
  rewrite len_app, len_cons. pose proof (len_nonneg rest) as Hrest.
  destruct (Z.eqb_spec (len pre) (len pre + (1 + len rest))); [lia|].
  unfold bind at 1. rewrite decodeTagAndAdditional_at.
  pose proof (byte_to_Z_range hdr) as Hhdr.
  pose proof (mask_additional_range (byte_to_Z hdr) (proj1 Hhdr)) as Hadd.
  set (tag := Z.land (byte_to_Z hdr) Tag.Major.mask).
  set (additional := Z.land (byte_to_Z hdr) Tag.Minor.mask) in *.
  unfold Tag.Minor.length1, Tag.Minor.length2, Tag.Minor.length4,
    Tag.Minor.length8.
  destruct (Z.ltb_spec additional 24) as [Hlt|Hge]; [reflexivity|].
  clearbody additional.
  destruct (Z.leb_spec 28 additional) as [Hbad|Hok].
  - destruct (Z.eqb_spec additional 27); [lia|].
    destruct (Z.eqb_spec additional 26); [lia|].
    destruct (Z.eqb_spec additional 25); [lia|].
    destruct (Z.eqb_spec additional 24); [lia|].
    reflexivity.
  - assert (Hcase : additional = 27 \/ additional = 26 \/ additional = 25
                    \/ additional = 24) by lia.
    destruct Hcase as [-> | [-> | [-> | ->]]].
    + multi_byte_path 8%nat.
    + multi_byte_path 4%nat.
    + multi_byte_path 2%nat.
    + change (field_width 24) with 1. cbn [Z.eqb Pos.eqb].
      unfold bind at 1. unfold get_pos at 1. cbn [dec_buf dec_pos].
      replace (len pre + (1 + len rest) - (len pre + 1)) with (len rest)
        by lia.
      destruct (Z.ltb_spec (len rest) 1) as [Hshort|Hlong];
        [reflexivity|].
      destruct rest as [|b rest'];
        [change (len (@nil byte)) with 0 in Hlong; lia|].
      unfold bind at 1. unfold buf_at_pos at 1. cbn [dec_buf dec_pos].
      replace (pre ++ hdr :: b :: rest') with ((pre ++ [hdr]) ++ b :: rest')
        by (rewrite <- app_assoc; reflexivity).
      replace (len pre + 1) with (len (pre ++ [hdr]))
        by (rewrite len_app; reflexivity).
      rewrite py_index_middle.
      unfold bind at 1. unfold advance at 1. cbn [dec_buf dec_pos].
      rewrite check_and_return_eq. cbn [dec_pos].
      rewrite Z.lor_0_l.
      replace (be_value (firstn (Z.to_nat 1) (b :: rest')))
        with (byte_to_Z b).
      * reflexivity.
      * change (firstn (Z.to_nat 1) (b :: rest')) with [b].
        cbn [be_value]. change (len (@nil byte)) with 0.
        change (2 ^ (8 * 0)) with 1. lia.
Qed.

End HeaderDecode.

(** * The encoder's header write *)

Section HeaderEncode.

Lemma bit_length_pos (v : Z) : 0 < v -> bit_length v = Z.log2 v + 1.
Proof.
  intros Hv. unfold bit_length.
  destruct (Z.eqb_spec v 0); [lia|].
  rewrite Z.abs_eq by lia. reflexivity.
Qed.

Lemma get_byte_length_inline (v : Z) : v < 24 -> get_byte_length v = 0.
Proof.
  intros Hv. unfold get_byte_length.
  destruct (Z.ltb_spec v 24); [reflexivity|lia].
Qed.

(** From 24 on, a magnitude in [[2^(8(k-1)), 2^(8k))] needs [k] bytes. *)
Lemma get_byte_length_bytes (v k : Z) :
  1 <= k -> 24 <= v -> 2 ^ (8 * (k - 1)) <= v < 2 ^ (8 * k) ->
  get_byte_length v = k.
Proof.
  intros Hk Hv [Hlo Hhi]. unfold get_byte_length.
  destruct (Z.ltb_spec v 24); [lia|].
  rewrite bit_length_pos by lia.
  assert (Hl1 : 8 * (k - 1) <= Z.log2 v)
    by (apply Z.log2_le_pow2; lia).
  assert (Hl2 : Z.log2 v < 8 * k)
    by (apply Z.log2_lt_pow2; lia).
  symmetry. apply Z.div_unique with (r := Z.log2 v + 1 + 7 - 8 * k); lia.
Qed.

Lemma get_byte_length_large (v : Z) :
  2 ^ 64 <= v -> 9 <= get_byte_length v.
Proof.
  intros Hv. unfold get_byte_length.
  assert (0 < 2 ^ 64) by (apply Z.pow_pos_nonneg; lia).
  destruct (Z.ltb_spec v 24); [lia|].
  rewrite bit_length_pos by lia.
  assert (Hl : 64 <= Z.log2 v) by (apply Z.log2_le_pow2; lia).
  change 9 with (72 / 8). apply Z.div_le_mono; lia.
Qed.

Lemma get_byte_length_nonneg (v : Z) : 0 <= get_byte_length v.
Proof.
  unfold get_byte_length. destruct (Z.ltb_spec v 24); [lia|].
  rewrite bit_length_pos by lia.
  pose proof (Z.log2_nonneg v). apply Z.div_pos; lia.
Qed.

Lemma append_int_byte (z : Z) (e : CBOREncoder) :
  0 <= z < 256 ->
  append_int z e = (Ok tt, mkEncoder (enc_buf e ++ [byte_of z])).
Proof.
  intros Hz. unfold append_int, bytearray_append, byte_of.
  destruct (byte_of_Z_some z Hz) as [b [-> _]]. reflexivity.
Qed.

Lemma append_int_land (x : Z) (e : CBOREncoder) :
  append_int (Z.land x 0xff) e
  = (Ok tt, mkEncoder (enc_buf e ++ [byte_of (Z.land x 0xff)])).
Proof. apply append_int_byte, land_ff_range. Qed.

Lemma encodeTagAndAdditional_byte (tag additional : Z) (e : CBOREncoder) :
  0 <= tag + additional < 256 ->
  encodeTagAndAdditional tag additional e
  = (Ok 1, mkEncoder (enc_buf e ++ [byte_of (tag + additional)])).
Proof.
  intros H. unfold encodeTagAndAdditional, bind.
  rewrite append_int_byte by assumption. reflexivity.
Qed.

Lemma major_tags_range (tag : Z) :
  In tag major_tags -> 0 <= tag <= 224 /\ tag mod 32 = 0.
Proof.
  unfold major_tags. simpl In.
  intros [<- | [<- | [<- | [<- | [<- | [<- | [<- | [<- | []]]]]]]]];
    vm_compute; intuition discriminate.
Qed.

(** The computed length, by range of the magnitude. *)
Lemma get_byte_length_cases (v : Z) :
  0 <= v < 2 ^ 64 ->
  (v < 24 /\ get_byte_length v = 0)
  \/ (24 <= v < 2 ^ 8 /\ get_byte_length v = 1)
  \/ (2 ^ 8 <= v < 2 ^ 16 /\ get_byte_length v = 2)
  \/ (2 ^ 16 <= v < 2 ^ 24 /\ get_byte_length v = 3)
  \/ (2 ^ 24 <= v < 2 ^ 32 /\ get_byte_length v = 4)
  \/ (2 ^ 32 <= v < 2 ^ 40 /\ get_byte_length v = 5)
  \/ (2 ^ 40 <= v < 2 ^ 48 /\ get_byte_length v = 6)
  \/ (2 ^ 48 <= v < 2 ^ 56 /\ get_byte_length v = 7)
  \/ (2 ^ 56 <= v < 2 ^ 64 /\ get_byte_length v = 8).
Proof.
  intros Hv.
  destruct (Z.lt_ge_cases v 24) as [H0|H0].
  { left. split; [assumption|]. apply get_byte_length_inline; assumption. }
  right.
  destruct (Z.lt_ge_cases v (2 ^ 8)) as [H1|H1].
  { left. split; [lia|]. apply get_byte_length_bytes; simpl; lia. }
  right.
  destruct (Z.lt_ge_cases v (2 ^ 16)) as [H2|H2].
  { left. split; [lia|]. apply get_byte_length_bytes; simpl; lia. }
  right.
  destruct (Z.lt_ge_cases v (2 ^ 24)) as [H3|H3].
  { left. split; [lia|]. apply get_byte_length_bytes; simpl; lia. }
  right.
  destruct (Z.lt_ge_cases v (2 ^ 32)) as [H4|H4].
  { left. split; [lia|]. apply get_byte_length_bytes; simpl; lia. }
  right.
  destruct (Z.lt_ge_cases v (2 ^ 40)) as [H5|H5].
  { left. split; [lia|]. apply get_byte_length_bytes; simpl; lia. }
  right.
  destruct (Z.lt_ge_cases v (2 ^ 48)) as [H6|H6].
  { left. split; [lia|]. apply get_byte_length_bytes; simpl; lia. }
  right.
  destruct (Z.lt_ge_cases v (2 ^ 56)) as [H7|H7].
  { left. split; [lia|]. apply get_byte_length_bytes; simpl; lia. }
  right. split; [lia|]. apply get_byte_length_bytes; simpl; lia.
Qed.

(** Run the appends of one branch, collecting the bytes. *)
Ltac run_appends :=
  unfold bind;
  rewrite encodeTagAndAdditional_byte by lia; cbv beta iota;
  repeat (rewrite append_int_land; cbv beta iota; cbn [enc_buf]);
  unfold ret; cbn [enc_buf];
  repeat rewrite <- app_assoc;
  reflexivity.

(** The whole behaviour of [encodeTagAndValue] on a magnitude that
    fits eight bytes. *)
Lemma encodeTagAndValue_ok (tag value : Z) (e : CBOREncoder) :
  In tag major_tags -> 0 <= value < 2 ^ 64 ->
  encodeTagAndValue tag value e
  = (Ok (1 + get_byte_length value),
     mkEncoder (enc_buf e ++ header_bytes tag value)).
Proof.
  intros Htag Hv. apply major_tags_range in Htag as [Htag _].
  unfold encodeTagAndValue, header_bytes.
  unfold Tag.Minor.length1, Tag.Minor.length2, Tag.Minor.length4,
    Tag.Minor.length8.
  destruct (get_byte_length_cases value Hv)
    as [[H ->] | [[H ->] | [[H ->] | [[H ->] | [[H ->] | [[H ->]
        | [[H ->] | [[H ->] | [H ->]]]]]]]]];
    cbv zeta; cbn [Z.leb Z.eqb Z.compare Pos.compare Pos.compare_cont
                   Pos.eqb andb orb emitted_width];
    run_appends.
Qed.

Lemma byte_to_of (z : Z) : 0 <= z < 256 -> byte_to_Z (byte_of z) = z.
Proof.
  intros Hz. unfold byte_of.
  destruct (byte_of_Z_some z Hz) as [b [-> Hb]]. exact Hb.
Qed.

Lemma shifts_desc_length (k : nat) : length (shifts_desc k) = k.
Proof. induction k; simpl; congruence. Qed.

Lemma be_bytes_length (k : nat) (v : Z) : length (be_bytes k v) = k.
Proof. unfold be_bytes. rewrite length_map. apply shifts_desc_length. Qed.

(** The bytes written for a magnitude read back as its low [8k] bits. *)
Lemma be_value_be_bytes (k : nat) (v : Z) :
  be_value (be_bytes k v) = v mod 2 ^ (8 * Z.of_nat k).
Proof.
  induction k as [|k IH].
  - simpl. rewrite Z.mod_1_r. reflexivity.
  - change (be_bytes (S k) v)
      with (byte_of (Z.land (Z.shiftr v (8 * Z.of_nat k)) 0xff)
            :: be_bytes k v).
    cbn [be_value]. rewrite IH.
    unfold len. rewrite be_bytes_length.
    rewrite byte_to_of by apply land_ff_range.
    change 0xff with (Z.ones 8). rewrite Z.land_ones by lia.
    rewrite Z.shiftr_div_pow2 by lia.
    replace (8 * Z.of_nat (S k)) with (8 * Z.of_nat k + 8) by lia.
    rewrite (Z.pow_add_r 2 (8 * Z.of_nat k) 8) by lia.
    assert (0 < 2 ^ (8 * Z.of_nat k)) by (apply Z.pow_pos_nonneg; lia).
    rewrite Z.rem_mul_r by lia. lia.
Qed.

Lemma be_value_be_bytes_small (k : nat) (v : Z) :
  0 <= v < 2 ^ (8 * Z.of_nat k) -> be_value (be_bytes k v) = v.
Proof.
  intros Hv. rewrite be_value_be_bytes. apply Z.mod_small. assumption.
Qed.

(** The bytes a call appends: one header octet and the emitted width. *)
Lemma header_bytes_length (tag value : Z) :
  0 <= value < 2 ^ 64 ->
  len (header_bytes tag value) = 1 + emitted_width (get_byte_length value).
Proof.
  intros Hv. unfold header_bytes.
  destruct (get_byte_length_cases value Hv)
    as [[H ->] | [[H ->] | [[H ->] | [[H ->] | [[H ->] | [[H ->]
        | [[H ->] | [[H ->] | [H ->]]]]]]]]];
    reflexivity.
Qed.

End HeaderEncode.

(** * Encoding then decoding a header *)

Section RoundTrip.

(** Masking a header octet splits it at bit 5. *)
Lemma masks_split (b : byte) :
  Z.land (byte_to_Z b) Tag.Major.mask = 32 * (byte_to_Z b / 32)
  /\ Z.land (byte_to_Z b) Tag.Minor.mask = byte_to_Z b mod 32.
Proof. destruct b; split; reflexivity. Qed.

Lemma header_octet_split (tag additional : Z) :
  In tag major_tags -> 0 <= additional < 32 ->
  Z.land (byte_to_Z (byte_of (tag + additional))) Tag.Major.mask = tag
  /\ Z.land (byte_to_Z (byte_of (tag + additional))) Tag.Minor.mask
     = additional.
Proof.
  intros Htag Ha. apply major_tags_range in Htag as [Hr Hm].
  destruct (masks_split (byte_of (tag + additional))) as [-> ->].
  rewrite byte_to_of by lia.
  rewrite (Z.div_mod tag 32) by lia. rewrite Hm.
  split.
  - rewrite (Z.mul_comm 32 (tag / 32)), Z.add_0_r.
    rewrite Z.div_add_l by lia. rewrite (Z.div_small additional) by lia.
    lia.
  - rewrite Z.add_0_r, (Z.mul_comm 32 (tag / 32)), Z.add_comm.
    rewrite Z.mod_add by lia. apply Z.mod_small. lia.
Qed.

Lemma firstn_field (k : nat) (field rest : list byte) :
  length field = k -> firstn k (field ++ rest) = field.
Proof.
  intros <-. rewrite firstn_app, firstn_all, Nat.sub_diag.
  simpl. apply app_nil_r.
Qed.

(** Reading back a header written with a [k]-byte field. *)
Lemma decode_field_header (flags tag value : Z) (k : nat)
      (pre rest : list byte) :
  In tag major_tags -> 24 <= value < 2 ^ (8 * Z.of_nat k) ->
  In (Z.of_nat k) [1; 2; 4; 8] ->
  decodeTagAndValue flags
    (mkDecoder (pre ++ (byte_of (tag + indicator (Z.of_nat k))
                        :: be_bytes k value) ++ rest) (len pre))
  = (Ok (tag, value, len pre + 1 + Z.of_nat k),
     mkDecoder (pre ++ (byte_of (tag + indicator (Z.of_nat k))
                        :: be_bytes k value) ++ rest)
               (len pre + 1 + Z.of_nat k)).
Proof.
  intros Htag Hv Hk.
  cbn [app]. rewrite decodeTagAndValue_header. cbv zeta.
  assert (Hind : 24 <= indicator (Z.of_nat k) <= 27
                 /\ field_width (indicator (Z.of_nat k)) = Z.of_nat k).
  { simpl In in Hk.
    destruct Hk as [<- | [<- | [<- | [<- | []]]]]; vm_compute;
      intuition discriminate. }
  destruct Hind as [Hind Hw].
  destruct (header_octet_split tag (indicator (Z.of_nat k)) Htag) as [-> ->];
    [lia|].
  rewrite Hw.
  destruct (Z.ltb_spec (indicator (Z.of_nat k)) 24); [lia|].
  destruct (Z.leb_spec 28 (indicator (Z.of_nat k))); [lia|].
  rewrite len_app. unfold len at 1. rewrite be_bytes_length.
  pose proof (len_nonneg rest).
  destruct (Z.ltb_spec (Z.of_nat k + len rest) (Z.of_nat k)); [lia|].
  rewrite Nat2Z.id, firstn_field by apply be_bytes_length.
  rewrite be_value_be_bytes_small by lia.
  destruct (Z.eqb_spec value 0); [lia|].
  rewrite andb_false_r. reflexivity.
Qed.

(** What [decodeTagAndValue] returns on the bytes [encodeTagAndValue]
    wrote, at any cursor: the tag and magnitude back, and as third
    component 1 on the inline path and the cursor otherwise. *)
Lemma decodeTagAndValue_header_bytes (flags tag value : Z)
      (pre rest : list byte) :
  In tag major_tags -> 0 <= value < 2 ^ 64 ->
  let w := emitted_width (get_byte_length value) in
  decodeTagAndValue flags
    (mkDecoder (pre ++ header_bytes tag value ++ rest) (len pre))
  = (Ok (tag, value, if value <? 24 then 1 else len pre + 1 + w),
     mkDecoder (pre ++ header_bytes tag value ++ rest) (len pre + 1 + w)).
Proof.
  intros Htag Hv. unfold header_bytes.
  destruct (get_byte_length_cases value Hv)
    as [[H ->] | [[H ->] | [[H ->] | [[H ->] | [[H ->] | [[H ->]
        | [[H ->] | [[H ->] | [H ->]]]]]]]]];
    cbv zeta;
    cbn [Z.leb Z.eqb Z.compare Pos.compare Pos.compare_cont
         Pos.eqb andb orb emitted_width].
  - cbn [app]. rewrite decodeTagAndValue_header. cbv zeta.
    destruct (header_octet_split tag value Htag) as [-> ->]; [lia|].
    destruct (Z.ltb_spec value 24); [|lia].
    rewrite Z.add_0_r. reflexivity.
  - destruct (Z.ltb_spec value 24); [lia|].
    apply (decode_field_header flags tag value 1 pre rest Htag);
      [simpl; lia | simpl; auto].
  - destruct (Z.ltb_spec value 24); [lia|].
    apply (decode_field_header flags tag value 2 pre rest Htag);
      [simpl; lia | simpl; auto].
  - destruct (Z.ltb_spec value 24); [lia|].
    apply (decode_field_header flags tag value 4 pre rest Htag);
      [simpl; lia | simpl; auto].
  - destruct (Z.ltb_spec value 24); [lia|].
    apply (decode_field_header flags tag value 4 pre rest Htag);
      [simpl; lia | simpl; auto].
  - destruct (Z.ltb_spec value 24); [lia|].
    apply (decode_field_header flags tag value 8 pre rest Htag);
      [simpl; lia | simpl; auto].
  - destruct (Z.ltb_spec value 24); [lia|].
    apply (decode_field_header flags tag value 8 pre rest Htag);
      [simpl; lia | simpl; auto].
  - destruct (Z.ltb_spec value 24); [lia|].
    apply (decode_field_header flags tag value 8 pre rest Htag);
      [simpl; lia | simpl; auto].
  - destruct (Z.ltb_spec value 24); [lia|].
    apply (decode_field_header flags tag value 8 pre rest Htag);
      [simpl; lia | simpl; auto].
Qed.

End RoundTrip.

(** * The header decoder, case by case *)

Section HeaderCases.

Lemma py_index_split (buf : list byte) (pos : Z) (hdr : byte) :
  0 <= pos -> py_index buf pos = Some hdr ->
  exists pre rest, buf = pre ++ hdr :: rest /\ len pre = pos.
Proof.
  intros Hpos. unfold py_index.
  destruct (Z.leb_spec 0 pos); [|lia].
  destruct (Z.ltb_spec pos (len buf)); cbn [andb].
  - intros Hnth. apply nth_error_split in Hnth as (pre & rest & -> & Hlen).
    exists pre, rest. split; [reflexivity|]. unfold len. lia.
  - destruct (Z.ltb_spec pos 0); [lia|]. rewrite andb_false_r.
    discriminate.
Qed.

Lemma py_index_end (buf : list byte) : py_index buf (len buf) = None.
Proof.
  unfold py_index. pose proof (len_nonneg buf).
  destruct (Z.ltb_spec (len buf) (len buf)); [lia|].
  destruct (Z.ltb_spec (len buf) 0); [lia|].
  rewrite !andb_false_r. reflexivity.
Qed.

Lemma decodeTagAndValue_end (flags : Z) (buf : list byte) :
  decodeTagAndValue flags (mkDecoder buf (len buf))
  = (Raise NotEnoughInput, mkDecoder buf (len buf)).
Proof.
  unfold decodeTagAndValue, bind, buf_len, get_pos, raise.
  cbn [dec_buf dec_pos]. rewrite Z.eqb_refl. reflexivity.
Qed.

Lemma py_slice_field (pre : list byte) (hdr : byte) (rest : list byte)
      (w : Z) :
  0 <= w <= len rest ->
  py_slice (pre ++ hdr :: rest) (len pre + 1) (len pre + 1 + w)
  = firstn (Z.to_nat w) rest.
Proof.
  intros Hw.
  assert (Hlen : length (firstn (Z.to_nat w) rest) = Z.to_nat w).
  { apply firstn_length_le. unfold len in Hw. lia. }
  rewrite <- (firstn_skipn (Z.to_nat w) rest) at 1.
  remember (firstn (Z.to_nat w) rest) as field eqn:Hfield.
  remember (skipn (Z.to_nat w) rest) as tail eqn:Htail.
  replace (pre ++ hdr :: field ++ tail) with ((pre ++ [hdr]) ++ field ++ tail)
    by (rewrite <- app_assoc; reflexivity).
  replace (len pre + 1) with (len (pre ++ [hdr]))
    by (rewrite len_app; reflexivity).
  replace w with (len field) by (unfold len; lia).
  apply py_slice_middle.
Qed.

(** [decodeTagAndValue_header] through [decode_at], with the field
    named as a slice of the buffer. *)
Lemma decode_at_header (flags : Z) (pre : list byte) (hdr : byte)
      (rest : list byte) :
  let buf := pre ++ hdr :: rest in
  let pos := len pre in
  let tag := Z.land (byte_to_Z hdr) Tag.Major.mask in
  let additional := Z.land (byte_to_Z hdr) Tag.Minor.mask in
  let w := field_width additional in
  let value := be_value (py_slice buf (pos + 1) (pos + 1 + w)) in
  decode_at (decodeTagAndValue flags) buf pos
  = if additional <? 24 then (Ok (tag, additional, 1), pos + 1)
    else if 28 <=? additional then (Raise BadAdditionalValue, pos + 1)
    else if len buf - (pos + 1) <? w then (Raise NotEnoughInput, pos + 1)
    else (if minimal_check_fails flags value
          then Raise EncodingNotMinimal
          else Ok (tag, value, pos + 1 + w),
          pos + 1 + w).
Proof.
  cbv zeta. unfold decode_at, minimal_check_fails.
  rewrite decodeTagAndValue_header. cbv zeta.
  set (additional := Z.land (byte_to_Z hdr) Tag.Minor.mask).
  rewrite len_app, len_cons.
  replace (len pre + (1 + len rest) - (len pre + 1)) with (len rest) by lia.
  destruct (additional <? 24); [reflexivity|].
  destruct (28 <=? additional); [reflexivity|].
  destruct (Z.ltb_spec (len rest) (field_width additional)) as [Hs|Hl];
    [reflexivity|].
  assert (0 <= field_width additional).
  { unfold field_width.
    repeat match goal with
           | |- context [if ?c then _ else _] => destruct c
           end; lia. }
  rewrite py_slice_field by lia.
  destruct (truthy (Z.land flags Flag.requireMinimalEncoding)
            && (be_value (firstn (Z.to_nat (field_width additional)) rest)
                =? 0)); reflexivity.
Qed.

End HeaderCases.

(** * Header decode: paths and failures *)

Section DecodeClaims.

Ltac field_case a w :=
  intros ->; change (field_width a) with w;
  change (a <? 24) with false; change (28 <=? a) with false; cbv iota;
  split; intros ?;
  match goal with
  | |- context [?l <? w] => destruct (Z.ltb_spec l w)
  end; first [reflexivity | lia].

(** C5.  With the cursor inside the buffer, [decodeTagAndValue] raises
    "Not enough input" when the cursor is at the end.  Otherwise the
    octet under the cursor is the header: a minor indicator below 24 is
    returned as the magnitude and only the header octet is consumed;
    the indicators 24, 25, 26 and 27 read exactly 1, 2, 4 and 8 further
    bytes as a big-endian magnitude, and raise "Not enough input" when
    fewer remain; the indicators 28 to 31 raise "Bad additional value".
    This holds for every buffer and every flag value. *)
Theorem decodeTagAndValue_paths (flags : Z) (buf : list byte) (pos : Z) :
  0 <= pos <= len buf ->
  let run := decode_at (decodeTagAndValue flags) buf pos in
  (pos = len buf -> run = (Raise NotEnoughInput, pos))
  /\ (forall hdr : byte,
        py_index buf pos = Some hdr ->
        let tag := Z.land (byte_to_Z hdr) Tag.Major.mask in
        let additional := Z.land (byte_to_Z hdr) Tag.Minor.mask in
        (additional < 24 -> run = (Ok (tag, additional, 1), pos + 1))
        /\ (additional = 24 -> reads_field flags buf pos tag 1)
        /\ (additional = 25 -> reads_field flags buf pos tag 2)
        /\ (additional = 26 -> reads_field flags buf pos tag 4)
        /\ (additional = 27 -> reads_field flags buf pos tag 8)
        /\ (28 <= additional <= 31 ->
            run = (Raise BadAdditionalValue, pos + 1))).
Proof.
  intros Hpos. cbv zeta. split.
  - intros ->. unfold decode_at. rewrite decodeTagAndValue_end. reflexivity.
  - intros hdr Hhdr.
    destruct (py_index_split buf pos hdr (proj1 Hpos) Hhdr)
      as (pre & rest & -> & <-).
    pose proof (decode_at_header flags pre hdr rest) as Hrun.
    cbv zeta in Hrun. unfold reads_field. cbv zeta.
    set (additional := Z.land (byte_to_Z hdr) Tag.Minor.mask) in *.
    set (tag := Z.land (byte_to_Z hdr) Tag.Major.mask) in *.
    rewrite Hrun. clear Hrun. clearbody additional.
    split; [|split; [|split; [|split; [|split]]]].
    + intros Hlt. destruct (Z.ltb_spec additional 24); [reflexivity|lia].
    + field_case 24 1.
    + field_case 25 2.
    + field_case 26 4.
    + field_case 27 8.
    + intros Hbad. destruct (Z.ltb_spec additional 24); [lia|].
      destruct (Z.leb_spec 28 additional); [reflexivity|lia].
Qed.

Lemma decodeTagAndValue_paths_witness :
  decode_at (decodeTagAndValue Flag.none) (bytes_of [0x19; 0x01; 0x00]) 0
  = (Ok (Tag.Major.unsignedInteger, 256, 3), 3).
Proof.
  assert (Hpos : 0 <= 0 <= len (bytes_of [0x19; 0x01; 0x00]))
    by (vm_compute; split; discriminate).
  pose proof (decodeTagAndValue_paths Flag.none
                (bytes_of [0x19; 0x01; 0x00]) 0 Hpos) as [_ Hhdr].
  specialize (Hhdr x19 eq_refl).
  destruct Hhdr as (_ & _ & H25 & _).
  destruct (H25 eq_refl) as [_ Hread].
  apply Hread. vm_compute. discriminate.
Defined.

(** C9.  With [requireMinimalEncoding] set, [decodeTagAndValue] raises
    "Encoding not minimal" exactly when the header octet selects a
    field (indicator 24, 25, 26 or 27), the field is there, and its
    big-endian value is zero.  In particular the magnitude 1 written in
    an 8-byte field is accepted. *)
Theorem minimal_check_rejects_zero_only (flags : Z) (buf : list byte)
        (pos : Z) :
  0 <= pos <= len buf ->
  truthy (Z.land flags Flag.requireMinimalEncoding) = true ->
  (fst (decode_at (decodeTagAndValue flags) buf pos)
   = Raise EncodingNotMinimal
   <-> exists hdr : byte,
       py_index buf pos = Some hdr
       /\ let additional := Z.land (byte_to_Z hdr) Tag.Minor.mask in
          let w := field_width additional in
          24 <= additional <= 27
          /\ w <= len buf - (pos + 1)
          /\ be_value (py_slice buf (pos + 1) (pos + 1 + w)) = 0)
  /\ decode_at (decodeTagAndValue flags)
               (bytes_of [0x1b; 0; 0; 0; 0; 0; 0; 0; 1]) 0
     = (Ok (Tag.Major.unsignedInteger, 1, 9), 9).
Proof.
  intros Hpos Hflag. split.
  - destruct (Z.eq_dec pos (len buf)) as [->|Hne].
    + unfold decode_at. rewrite decodeTagAndValue_end. cbn [fst].
      split; [discriminate|].
      intros (hdr & Hidx & _). rewrite py_index_end in Hidx. discriminate.
    + assert (Hsome : exists hdr, py_index buf pos = Some hdr).
      { unfold py_index.
        destruct (Z.leb_spec 0 pos); [|lia].
        destruct (Z.ltb_spec pos (len buf)); [|lia]. cbn [andb].
        destruct (nth_error buf (Z.to_nat pos)) as [b|] eqn:E;
          [exists b; reflexivity|].
        apply nth_error_None in E. unfold len in *. lia. }
      destruct Hsome as [hdr Hidx].
      destruct (py_index_split buf pos hdr (proj1 Hpos) Hidx)
        as (pre & rest & -> & <-).
      pose proof (decode_at_header flags pre hdr rest) as Hrun.
      cbv zeta in Hrun. rewrite Hrun. clear Hrun.
      unfold minimal_check_fails. rewrite Hflag. cbn [andb].
      set (additional := Z.land (byte_to_Z hdr) Tag.Minor.mask).
      set (w := field_width additional).
      set (value := be_value (py_slice (pre ++ hdr :: rest) (len pre + 1)
                                       (len pre + 1 + w))).
      split.
      * intros Hres. exists hdr. split; [assumption|]. cbv zeta.
        fold additional. fold w. fold value.
        destruct (Z.ltb_spec additional 24); [discriminate|].
        destruct (Z.leb_spec 28 additional); [discriminate|].
        destruct (Z.ltb_spec (len (pre ++ hdr :: rest) - (len pre + 1)) w);
          [discriminate|].
        destruct (Z.eqb_spec value 0); [|discriminate].
        repeat split; lia.
      * intros (hdr' & Hidx' & Hrest). rewrite Hidx in Hidx'.
        injection Hidx' as <-. cbv zeta in Hrest.
        fold additional in Hrest. fold w in Hrest. fold value in Hrest.
        destruct Hrest as (Ha & Hw & Hv).
        destruct (Z.ltb_spec additional 24); [lia|].
        destruct (Z.leb_spec 28 additional); [lia|].
        destruct (Z.ltb_spec (len (pre ++ hdr :: rest) - (len pre + 1)) w);
          [lia|].
        rewrite Hv. reflexivity.
  - pose proof (decode_at_header flags [] x1b
                  (bytes_of [0; 0; 0; 0; 0; 0; 0; 1])) as Hrun.
    cbv zeta in Hrun. cbn [app] in Hrun.
    change (x1b :: bytes_of [0; 0; 0; 0; 0; 0; 0; 1])
      with (bytes_of [0x1b; 0; 0; 0; 0; 0; 0; 0; 1]) in Hrun.
    change (len (@nil byte)) with 0 in Hrun.
    rewrite Hrun. unfold minimal_check_fails. rewrite Hflag.
    reflexivity.
Qed.

Lemma minimal_check_rejects_zero_only_witness :
  fst (decode_at (decodeTagAndValue Flag.requireMinimalEncoding)
                 (bytes_of [0x19; 0; 0]) 0)
  = Raise EncodingNotMinimal.
Proof.
  assert (Hpos : 0 <= 0 <= len (bytes_of [0x19; 0; 0]))
    by (vm_compute; split; discriminate).
  apply (proj1 (minimal_check_rejects_zero_only
                  Flag.requireMinimalEncoding (bytes_of [0x19; 0; 0]) 0
                  Hpos eq_refl)).
  exists x19. split; [reflexivity|].
  vm_compute. repeat split; discriminate.
Defined.

End DecodeClaims.

(** * Header encode: widths and byte counts *)

Section EncodeClaims.

Lemma In_widths (w : Z) :
  In w widths -> w = 0 \/ w = 1 \/ w = 2 \/ w = 4 \/ w = 8.
Proof. unfold widths. simpl. intuition. Qed.

(** The emitted width is the least of the five that holds the
    magnitude. *)
Lemma emitted_width_least (value : Z) :
  0 <= value < 2 ^ 64 ->
  let w := emitted_width (get_byte_length value) in
  In w widths /\ holds w value
  /\ (forall w', In w' widths -> holds w' value -> w <= w').
Proof.
  intros Hv. cbv zeta.
  destruct (get_byte_length_cases value Hv)
    as [[H ->] | [[H ->] | [[H ->] | [[H ->] | [[H ->] | [[H ->]
        | [[H ->] | [[H ->] | [H ->]]]]]]]]];
    (split; [vm_compute; tauto|]);
    (split; [unfold holds; simpl; lia|]);
    intros w' Hin Hholds; apply In_widths in Hin;
    destruct Hin as [-> | [-> | [-> | [-> | ->]]]];
    unfold holds in Hholds; simpl in Hholds;
    first [exfalso; lia | vm_compute; discriminate].
Qed.

(** C4.  For a magnitude that fits eight bytes, [encodeTagAndValue]
    appends the header octet and a field whose width is one of 0, 1, 2,
    4, 8 and is the least of these that can hold the magnitude, a
    computed length of 3 being emitted as 4 and one of 5 to 7 as 8.
    For a magnitude that needs more than eight bytes it raises the
    unsupported-byte-length exception and appends nothing. *)
Theorem encodeTagAndValue_width (tag value : Z) (e : CBOREncoder) :
  In tag major_tags -> 0 <= value ->
  (value < 2 ^ 64 ->
   exists (w r : Z) (out : list byte),
     encodeTagAndValue tag value e = (Ok r, mkEncoder (enc_buf e ++ out))
     /\ len out = 1 + w
     /\ In w widths
     /\ holds w value
     /\ (forall w', In w' widths -> holds w' value -> w <= w')
     /\ (get_byte_length value = 3 -> w = 4)
     /\ (5 <= get_byte_length value <= 7 -> w = 8))
  /\ (2 ^ 64 <= value ->
      encodeTagAndValue tag value e
      = (Raise (UnsupportedByteLength (get_byte_length value)), e)).
Proof.
  intros Htag Hnn. split.
  - intros Hlt.
    assert (Hv : 0 <= value < 2 ^ 64) by lia.
    exists (emitted_width (get_byte_length value)),
      (1 + get_byte_length value), (header_bytes tag value).
    destruct (emitted_width_least value Hv) as (Hin & Hholds & Hleast).
    split; [apply encodeTagAndValue_ok; assumption|].
    split; [apply header_bytes_length; assumption|].
    split; [assumption|]. split; [assumption|]. split; [assumption|].
    split.
    + intros ->. reflexivity.
    + intros Hrange. unfold emitted_width.
      destruct (Z.leb_spec 5 (get_byte_length value)); [|lia].
      destruct (Z.leb_spec (get_byte_length value) 8); [|lia].
      reflexivity.
  - intros Hbig. pose proof (get_byte_length_large value Hbig) as Hlen.
    unfold encodeTagAndValue. cbv zeta.
    set (length := get_byte_length value) in *.
    destruct (Z.leb_spec length 8); [lia|]. rewrite andb_false_r.
    destruct (Z.eqb_spec length 3); [lia|].
    destruct (Z.eqb_spec length 4); [lia|].
    destruct (Z.eqb_spec length 2); [lia|].
    destruct (Z.eqb_spec length 1); [lia|].
    destruct (Z.eqb_spec length 0); [lia|].
    reflexivity.
Qed.

Lemma encodeTagAndValue_width_witness :
  exists (w r : Z) (out : list byte),
    encodeTagAndValue Tag.Major.unsignedInteger 65536 new_encoder
    = (Ok r, mkEncoder (enc_buf new_encoder ++ out))
    /\ len out = 1 + w
    /\ In w widths
    /\ holds w 65536
    /\ (forall w', In w' widths -> holds w' 65536 -> w <= w')
    /\ (get_byte_length 65536 = 3 -> w = 4)
    /\ (5 <= get_byte_length 65536 <= 7 -> w = 8).
Proof.
  apply (encodeTagAndValue_width Tag.Major.unsignedInteger 65536 new_encoder).
  - simpl. auto.
  - lia.
  - reflexivity.
Defined.

End EncodeClaims.

(** * Typed operations on encoded headers *)

Section TypedOperations.

(** The count returned by [encodeTagAndValue] against the bytes it
    appends: they agree except when the computed length is 3, 5, 6 or
    7. *)
Lemma encodeTagAndValue_count (tag value : Z) (e : CBOREncoder) :
  In tag major_tags -> 0 <= value < 2 ^ 64 ->
  exists out : list byte,
    encodeTagAndValue tag value e
    = (Ok (1 + get_byte_length value), mkEncoder (enc_buf e ++ out))
    /\ len out = 1 + emitted_width (get_byte_length value)
    /\ (1 + get_byte_length value = len out
        <-> ~ In (get_byte_length value) [3; 5; 6; 7]).
Proof.
  intros Htag Hv. exists (header_bytes tag value).
  split; [apply encodeTagAndValue_ok; assumption|].
  split; [apply header_bytes_length; assumption|].
  rewrite header_bytes_length by assumption.
  destruct (get_byte_length_cases value Hv)
    as [[H ->] | [[H ->] | [[H ->] | [[H ->] | [[H ->] | [[H ->]
        | [[H ->] | [[H ->] | [H ->]]]]]]]]];
    vm_compute; intuition congruence.
Qed.

(** A header written on a fresh encoder and read on a fresh decoder. *)
Lemma decode_fresh_header_bytes (flags tag value : Z) :
  In tag major_tags -> 0 <= value < 2 ^ 64 ->
  encode_fresh (encodeTagAndValue tag value)
  = (Ok (1 + get_byte_length value), header_bytes tag value)
  /\ decodeTagAndValue flags (new_decoder (header_bytes tag value))
     = (Ok (tag, value, if value <? 24 then 1
                        else 1 + emitted_width (get_byte_length value)),
        mkDecoder (header_bytes tag value)
                  (1 + emitted_width (get_byte_length value))).
Proof.
  intros Htag Hv. split.
  - unfold encode_fresh. rewrite encodeTagAndValue_ok by assumption.
    reflexivity.
  - pose proof (decodeTagAndValue_header_bytes flags tag value [] []
                  Htag Hv) as H.
    cbv zeta in H. cbn [app] in H. rewrite app_nil_r in H.
    change (len (@nil byte)) with 0 in H. unfold new_decoder.
    rewrite H. reflexivity.
Qed.

(** Whatever count was encoded, [decodeMapSize] rejects the header that
    [encodeMapSize] wrote, and names the map tag as the one found. *)
Lemma decodeMapSize_after_encodeMapSize (flags c : Z) :
  0 <= c < 2 ^ 64 ->
  exists (n : Z) (out : list byte),
    encode_fresh (encodeMapSize c) = (Ok n, out)
    /\ fst (decode_fresh (decodeMapSize flags) out)
       = Raise (ExpectedMap Tag.Major.map).
Proof.
  intros Hc.
  assert (Htag : In Tag.Major.map major_tags) by (simpl; auto 10).
  destruct (decode_fresh_header_bytes flags Tag.Major.map c Htag Hc)
    as [Henc Hdec].
  exists (1 + get_byte_length c), (header_bytes Tag.Major.map c).
  split; [exact Henc|].
  unfold decode_fresh, decodeMapSize, bind. rewrite Hdec. reflexivity.
Qed.

(** [decodeMapSize] rejects the header that [encodeArraySize] wrote. *)
Lemma decodeMapSize_after_encodeArraySize (flags c : Z) :
  0 <= c < 2 ^ 64 ->
  exists (n : Z) (out : list byte),
    encode_fresh (encodeArraySize c) = (Ok n, out)
    /\ fst (decode_fresh (decodeMapSize flags) out)
       = Raise (ExpectedMap Tag.Major.array).
Proof.
  intros Hc.
  assert (Htag : In Tag.Major.array major_tags) by (simpl; auto 10).
  destruct (decode_fresh_header_bytes flags Tag.Major.array c Htag Hc)
    as [Henc Hdec].
  exists (1 + get_byte_length c), (header_bytes Tag.Major.array c).
  split; [exact Henc|].
  unfold decode_fresh, decodeMapSize, bind. rewrite Hdec. reflexivity.
Qed.

(** [decodeArraySize] accepts the header that [encodeArraySize] wrote. *)
Lemma decodeArraySize_after_encodeArraySize (flags c : Z) :
  0 <= c < 2 ^ 64 ->
  exists (n m : Z) (out : list byte),
    encode_fresh (encodeArraySize c) = (Ok n, out)
    /\ fst (decode_fresh (decodeArraySize flags) out) = Ok (c, m).
Proof.
  intros Hc.
  assert (Htag : In Tag.Major.array major_tags) by (simpl; auto 10).
  destruct (decode_fresh_header_bytes flags Tag.Major.array c Htag Hc)
    as [Henc Hdec].
  eexists (1 + get_byte_length c), _, (header_bytes Tag.Major.array c).
  split; [exact Henc|].
  unfold decode_fresh, decodeArraySize, bind. rewrite Hdec. reflexivity.
Qed.

(** [encodeText] never returns: after the header it raises [TypeError],
    or [UnicodeEncodeError] when the text has no UTF-8 form. *)
Lemma encodeText_always_raises (value : pystr) (e : CBOREncoder) :
  len value < 2 ^ 64 ->
  encodeText value e
  = (Raise (match utf8 value with
            | Some _ => TypeError
            | None => UnicodeEncodeError
            end),
     mkEncoder (enc_buf e ++ header_bytes Tag.Major.textString (len value))).
Proof.
  intros Hlen. pose proof (len_nonneg value).
  assert (Htag : In Tag.Major.textString major_tags) by (simpl; auto 10).
  unfold encodeText, bind. cbv zeta.
  rewrite encodeTagAndValue_ok by (assumption || lia).
  destruct (utf8 value); reflexivity.
Qed.

(** [decodeInteger] in terms of the header it reads: outside the two
    integer tags the result is [None], never an exception. *)
Lemma decodeInteger_eq (flags : Z) (d : CBORDecoder) :
  decodeInteger flags d
  = match decodeTagAndValue flags d with
    | (Ok (tag, value, length), d') =>
        (Ok (if tag =? Tag.Major.unsignedInteger then Some (value, length)
             else if tag =? Tag.Major.negativeInteger
                  then Some (-1 - value, length)
                  else None), d')
    | (Raise e, d') => (Raise e, d')
    end.
Proof.
  unfold decodeInteger, bind.
  destruct (decodeTagAndValue flags d) as [[[[tag value] length]|ex] d'];
    [|reflexivity].
  destruct (tag =? Tag.Major.unsignedInteger); [reflexivity|].
  destruct (tag =? Tag.Major.negativeInteger); reflexivity.
Qed.

Lemma read_payload_ok (pre mid rest : list byte) (size_length : Z) :
  read_payload (len mid) size_length
               (mkDecoder (pre ++ mid ++ rest) (len pre))
  = (Ok (mid, size_length + len mid),
     mkDecoder (pre ++ mid ++ rest) (len pre + len mid)).
Proof.
  unfold read_payload, bind, buf_len, get_pos, get, advance, ret.
  cbn [dec_buf dec_pos]. rewrite !len_app.
  pose proof (len_nonneg rest).
  destruct (Z.ltb_spec (len pre + (len mid + len rest) - len pre) (len mid));
    [lia|].
  cbn [dec_buf dec_pos]. rewrite py_slice_middle. reflexivity.
Qed.

Lemma encodeBytes_ok (value : list byte) (e : CBOREncoder) :
  len value < 2 ^ 64 ->
  encodeBytes value e
  = (Ok (1 + get_byte_length (len value) + len value),
     mkEncoder (enc_buf e ++ header_bytes Tag.Major.byteString (len value)
                          ++ value)).
Proof.
  intros Hlen. pose proof (len_nonneg value).
  assert (Htag : In Tag.Major.byteString major_tags) by (simpl; auto 10).
  unfold encodeBytes, bind, bytearray_extend, ret.
  rewrite encodeTagAndValue_ok by (assumption || lia).
  cbn [enc_buf]. rewrite <- app_assoc. reflexivity.
Qed.

(** [decodeBytes] on an encoded byte string, at any cursor: the payload
    comes back; the length reported is right on the inline path and
    counts the bytes before the cursor as well on the others. *)
Lemma decodeBytes_encoded (flags : Z) (pre value rest : list byte) :
  len value < 2 ^ 64 ->
  let hdr := header_bytes Tag.Major.byteString (len value) in
  let w := emitted_width (get_byte_length (len value)) in
  decodeBytes flags (mkDecoder (pre ++ hdr ++ value ++ rest) (len pre))
  = (Ok (value, (if len value <? 24 then 1 else len pre + 1 + w)
                + len value),
     mkDecoder (pre ++ hdr ++ value ++ rest)
               (len pre + 1 + w + len value)).
Proof.
  intros Hlen. cbv zeta. pose proof (len_nonneg value) as Hnn.
  assert (Htag : In Tag.Major.byteString major_tags) by (simpl; auto 10).
  assert (Hv : 0 <= len value < 2 ^ 64) by lia.
  unfold decodeBytes, bind.
  pose proof (decodeTagAndValue_header_bytes flags Tag.Major.byteString
                (len value) pre (value ++ rest) Htag Hv) as Hdec.
  cbv zeta in Hdec. rewrite Hdec. clear Hdec.
  rewrite Z.eqb_refl. cbn [negb].
  set (hdr := header_bytes Tag.Major.byteString (len value)).
  assert (Hhdr : len hdr
                 = 1 + emitted_width (get_byte_length (len value)))
    by (apply header_bytes_length; assumption).
  replace (pre ++ hdr ++ value ++ rest) with ((pre ++ hdr) ++ value ++ rest)
    by (rewrite <- app_assoc; reflexivity).
  replace (len pre + 1 + emitted_width (get_byte_length (len value)))
    with (len (pre ++ hdr)) by (rewrite len_app; lia).
  rewrite read_payload_ok. reflexivity.
Qed.

(** [encodeEncodedBytes] then [decodeEncodedBytes], fresh on both
    sides: the payload comes back and the cursor ends at the end of the
    bytes written, but from 24 payload bytes on the length reported
    exceeds the bytes written by 2. *)
Lemma encoded_bytes_roundtrip (flags : Z) (value : list byte) :
  len value < 2 ^ 64 ->
  exists (n : Z) (out : list byte),
    encode_fresh (encodeEncodedBytes value) = (Ok n, out)
    /\ len out
       = 2 + (1 + emitted_width (get_byte_length (len value))) + len value
    /\ decode_fresh (decodeEncodedBytes flags) out
       = (Ok (value, if len value <? 24 then len out else len out + 2),
          len out).
Proof.
  intros Hlen. pose proof (len_nonneg value) as Hnn.
  assert (Hsem : In Tag.Major.semantic major_tags) by (simpl; auto 10).
  assert (H24 : 0 <= Tag.Minor.cborEncodedData < 2 ^ 64)
    by (vm_compute; split; [discriminate|reflexivity]).
  set (outer := header_bytes Tag.Major.semantic Tag.Minor.cborEncodedData).
  set (inner := header_bytes Tag.Major.byteString (len value)).
  set (w := emitted_width (get_byte_length (len value))).
  assert (Hinner : len inner = 1 + w)
    by (apply header_bytes_length; lia).
  exists (1 + get_byte_length Tag.Minor.cborEncodedData
          + (1 + get_byte_length (len value) + len value)),
    (outer ++ inner ++ value).
  assert (Hout : len (outer ++ inner ++ value) = 2 + (1 + w) + len value).
  { rewrite !len_app, Hinner. change (len outer) with 2. lia. }
  split; [|split; [exact Hout|]].
  - unfold encode_fresh, encodeEncodedBytes, bind, ret.
    rewrite encodeTagAndValue_ok by assumption.
    rewrite encodeBytes_ok by assumption.
    cbn [enc_buf new_encoder get_bytes app]. reflexivity.
  - unfold decode_fresh, decodeEncodedBytes, bind, new_decoder.
    pose proof (decodeTagAndValue_header_bytes flags Tag.Major.semantic
                  Tag.Minor.cborEncodedData [] (inner ++ value)
                  Hsem H24) as Hdec.
    cbv zeta in Hdec. cbn [app] in Hdec. fold outer in Hdec.
    change (len (@nil byte)) with 0 in Hdec.
    rewrite Hdec. clear Hdec.
    change (Tag.Major.semantic =? Tag.Major.semantic) with true.
    change (Tag.Minor.cborEncodedData =? Tag.Minor.cborEncodedData)
      with true.
    cbn [negb orb].
    change (0 + 1 + emitted_width (get_byte_length Tag.Minor.cborEncodedData))
      with (len outer).
    pose proof (decodeBytes_encoded flags outer value [] Hlen) as Hb.
    cbv zeta in Hb. fold inner in Hb. fold w in Hb.
    rewrite app_nil_r in Hb. rewrite Hb. clear Hb.
    change (Tag.Minor.cborEncodedData <? 24) with false. cbv iota.
    unfold ret. cbn [dec_pos]. rewrite Hout.
    change (len outer) with 2.
    destruct (Z.ltb_spec (len value) 24) as [Hsmall|Hbig].
    + assert (Hw : w = 0)
        by (unfold w; rewrite get_byte_length_inline by assumption;
            reflexivity).
      rewrite Hw.
      replace (2 + (1 + len value)) with (2 + (1 + 0) + len value) by lia.
      replace (2 + 1 + 0 + len value) with (2 + (1 + 0) + len value) by lia.
      reflexivity.
    + replace (2 + (2 + 1 + w + len value))
        with (2 + (1 + w) + len value + 2) by lia.
      replace (2 + 1 + w + len value) with (2 + (1 + w) + len value) by lia.
      reflexivity.
Qed.

End TypedOperations.

(** * Where the code departs from its description *)

Section Divergences.

(** C1.  Each listed magnitude, encoded with [encodeTagAndValue] on a
    fresh encoder and decoded with [decodeTagAndValue] on a fresh
    decoder, comes back unchanged; the count [n] returned by the encoder
    equals the count [m] reported by the decoder for every listed
    magnitude except 65536 and 2^32, where the encoder returns 4 and 6
    for the 5 and 9 bytes it wrote. *)
Theorem roundtrip_listed_magnitudes :
  Forall
    (fun v =>
       exists (n m : Z) (out : list byte),
         encode_fresh (encodeTagAndValue Tag.Major.unsignedInteger v)
         = (Ok n, out)
         /\ decode_fresh (decodeTagAndValue Flag.none) out
            = (Ok (Tag.Major.unsignedInteger, v, m), m)
         /\ m = len out
         /\ (n = m <-> v <> 65536 /\ v <> 2 ^ 32))
    listed_magnitudes.
Proof.
  unfold listed_magnitudes.
  repeat (apply Forall_cons || apply Forall_nil);
    (eexists; eexists; eexists;
     split; [vm_compute; reflexivity|];
     split; [vm_compute; reflexivity|];
     split; [vm_compute; reflexivity|];
     vm_compute; intuition congruence).
Qed.

(** C2.  On the magnitude 65536, whose computed byte length is 3,
    [encodeTagAndValue] appends five bytes and returns 4; on 2^32, whose
    computed byte length is 5, it appends nine bytes and returns 6. *)
Theorem encodeTagAndValue_returns_computed_length :
  get_byte_length 65536 = 3
  /\ encode_fresh (encodeTagAndValue Tag.Major.unsignedInteger 65536)
     = (Ok 4, bytes_of [0x1a; 0x00; 0x01; 0x00; 0x00])
  /\ len (bytes_of [0x1a; 0x00; 0x01; 0x00; 0x00]) = 5
  /\ get_byte_length (2 ^ 32) = 5
  /\ encode_fresh (encodeTagAndValue Tag.Major.unsignedInteger (2 ^ 32))
     = (Ok 6, bytes_of [0x1b; 0; 0; 0; 1; 0; 0; 0; 0])
  /\ len (bytes_of [0x1b; 0; 0; 0; 1; 0; 0; 0; 0]) = 9.
Proof. repeat split; vm_compute; reflexivity. Qed.

(** C3.  On the buffer [00 18 18] the first call consumes one byte and
    returns 1; the second call, starting at cursor 1, consumes the two
    bytes [18 18] and returns 3, the cursor, as its third component. *)
Theorem decodeTagAndValue_third_is_cursor :
  decode_at (decodeTagAndValue Flag.none) (bytes_of [0x00; 0x18; 0x18]) 0
  = (Ok (Tag.Major.unsignedInteger, 0, 1), 1)
  /\ decode_at (decodeTagAndValue Flag.none) (bytes_of [0x00; 0x18; 0x18]) 1
     = (Ok (Tag.Major.unsignedInteger, 24, 3), 3)
  /\ decode_fresh (decodeTagAndValue Flag.none ;;;
                   decodeTagAndValue Flag.none)
                  (bytes_of [0x00; 0x18; 0x18])
     = (Ok (Tag.Major.unsignedInteger, 24, 3), 3).
Proof. repeat split; vm_compute; reflexivity. Qed.

(** C6.  The header [encodeMapSize 3] writes is the single octet [a3];
    [decodeMapSize] on it raises the "Expected Tag.Major.map"
    exception, naming the map tag itself as the tag found. *)
Theorem decodeMapSize_rejects_map_header :
  encode_fresh (encodeMapSize 3) = (Ok 1, bytes_of [0xa3])
  /\ decode_fresh (decodeMapSize Flag.none) (bytes_of [0xa3])
     = (Raise (ExpectedMap Tag.Major.map), 1).
Proof. split; vm_compute; reflexivity. Qed.

(** C7.  [encodeText] on the one-letter text "a" writes the header
    octet [61] and then raises [TypeError]: no payload byte is appended
    and no count is returned. *)
Theorem encodeText_raises_TypeError :
  encode_fresh (encodeText [97]) = (Raise TypeError, bytes_of [0x61]).
Proof. vm_compute. reflexivity. Qed.

(** C8.  On the byte-string header [40], [decodeInteger] raises nothing:
    it returns [None], having consumed the octet. *)
Theorem decodeInteger_other_tag_returns_None :
  decode_fresh (decodeInteger Flag.none) (bytes_of [0x40]) = (Ok None, 1).
Proof. vm_compute. reflexivity. Qed.

(** C10.  For a payload of 24 zero bytes, [encodeEncodedBytes] writes 28
    bytes (2 of outer header, 2 of inner header, 24 of payload);
    [decodeEncodedBytes] recovers the payload and leaves the cursor at
    28, but reports 30 as the length consumed. *)
Theorem decodeEncodedBytes_reports_30_of_28 :
  exists out : list byte,
    encode_fresh (encodeEncodedBytes (repeat x00 24)) = (Ok 28, out)
    /\ len out = 28
    /\ decode_fresh (decodeEncodedBytes Flag.none) out
       = (Ok (repeat x00 24, 30), 28).
Proof.
  eexists. split; [vm_compute; reflexivity|].
  split; vm_compute; reflexivity.
Qed.

End Divergences.

(** * Further properties: the byte-length calculator *)

Section ByteLength.

(** X1.  From 24 on, [get_byte_length] is the least number of bytes
    that hold the magnitude, whatever its size: with [k] the result,
    [k >= 1] and [2^(8(k-1)) <= value < 2^(8k)]. *)
Theorem get_byte_length_least (value : Z) :
  24 <= value ->
  let k := get_byte_length value in
  1 <= k /\ 2 ^ (8 * (k - 1)) <= value < 2 ^ (8 * k).
Proof.
  intros Hv. cbv zeta. unfold get_byte_length.
  destruct (Z.ltb_spec value 24); [lia|].
  rewrite bit_length_pos by lia.
  pose proof (Z.log2_spec value ltac:(lia)) as [Hlo Hhi].
  assert (Hl : 4 <= Z.log2 value).
  { apply Z.log2_le_pow2; [lia|]. simpl. lia. }
  set (l := Z.log2 value) in *.
  pose proof (Z.div_mod (l + 1 + 7) 8 ltac:(lia)) as Hdm.
  pose proof (Z.mod_pos_bound (l + 1 + 7) 8 ltac:(lia)) as Hmod.
  set (k := (l + 1 + 7) / 8) in *.
  split; [lia|]. split.
  - apply Z.le_trans with (2 ^ l); [|assumption].
    apply Z.pow_le_mono_r; lia.
  - apply Z.lt_le_trans with (2 ^ Z.succ l); [assumption|].
    apply Z.pow_le_mono_r; lia.
Qed.

Lemma get_byte_length_least_witness :
  1 <= get_byte_length (2 ^ 70)
  /\ 2 ^ (8 * (get_byte_length (2 ^ 70) - 1)) <= 2 ^ 70
     < 2 ^ (8 * get_byte_length (2 ^ 70)).
Proof.
  apply (get_byte_length_least (2 ^ 70)). vm_compute. discriminate.
Defined.

End ByteLength.

(** * Further properties: the encoder's buffer *)

Section AppendOnly.









End AppendOnly.

(** * Further properties: the decoder's cursor *)

Section Cursor.

Lemma dec_post_ret {A} (a : A) (Q : A -> Prop) : Q a -> dec_post (ret a) Q.
Proof.
  intros Ha d Hd. unfold cursor_ok in Hd. cbn. split.
  - split; [reflexivity|lia].
  - intros a' E. injection E as <-. exact Ha.
Qed.

Lemma dec_post_raise {A} (x : exn) (Q : A -> Prop) :
  dec_post (@raise _ A x) Q.
Proof.
  intros d Hd. unfold cursor_ok in Hd. cbn. split.
  - split; [reflexivity|lia].
  - intros a E. discriminate.
Qed.

Lemma dec_post_bind {A B} (m : Dec A) (k : A -> Dec B)
      (Q : A -> Prop) (R : B -> Prop) :
  dec_post m Q -> (forall a, Q a -> dec_post (k a) R) ->
  dec_post (bind m k) R.
Proof.
  intros Hm Hk d Hd. destruct (Hm d Hd) as [[Hbuf Hpos] HQ].
  unfold bind. unfold cursor_ok in Hd.
  destruct (m d) as [[a|x] d1]; cbn [fst snd] in *.
  - assert (Hd1 : cursor_ok d1) by (unfold cursor_ok; rewrite Hbuf; lia).
    destruct (Hk a (HQ a eq_refl) d1 Hd1) as [[Hbuf2 Hpos2] HR].
    split; [|exact HR].
    split; [congruence|]. rewrite Hbuf in Hpos2. lia.
  - split; [split; assumption|]. intros b E. discriminate.
Qed.

Lemma dec_post_weaken {A} (m : Dec A) (Q R : A -> Prop) :
  dec_post m Q -> (forall a, Q a -> R a) -> dec_post m R.
Proof.
  intros Hm HQR d Hd. destruct (Hm d Hd) as [Hs HQ].
  split; [exact Hs|]. intros a E. apply HQR, HQ, E.
Qed.

Lemma py_index_some (buf : list byte) (pos : Z) :
  0 <= pos < len buf -> exists hdr, py_index buf pos = Some hdr.
Proof.
  intros Hpos. unfold py_index.
  destruct (Z.leb_spec 0 pos); [|lia].
  destruct (Z.ltb_spec pos (len buf)); [|lia]. cbn [andb].
  destruct (nth_error buf (Z.to_nat pos)) as [b|] eqn:E;
    [exists b; reflexivity|].
  apply nth_error_None in E. unfold len in *. lia.
Qed.

Lemma major_mask_in_tags (b : byte) :
  In (Z.land (byte_to_Z b) Tag.Major.mask) major_tags.
Proof.
  destruct (masks_split b) as [-> _].
  pose proof (byte_to_Z_range b) as Hb.
  assert (Hq : 0 <= byte_to_Z b / 32 < 8).
  { split; [apply Z.div_pos; lia|].
    apply Z.div_lt_upper_bound; lia. }
  set (q := byte_to_Z b / 32) in *.
  assert (Hc : q = 0 \/ q = 1 \/ q = 2 \/ q = 3 \/ q = 4 \/ q = 5
               \/ q = 6 \/ q = 7) by lia.
  destruct Hc as [-> | [-> | [-> | [-> | [-> | [-> | [-> | ->]]]]]]];
    vm_compute; tauto.
Qed.

Lemma field_width_cases (additional : Z) :
  24 <= additional < 28 ->
  In (field_width additional) [1; 2; 4; 8].
Proof.
  intros Ha.
  assert (Hc : additional = 24 \/ additional = 25 \/ additional = 26
               \/ additional = 27) by lia.
  destruct Hc as [-> | [-> | [-> | ->]]]; vm_compute; tauto.
Qed.

Lemma dec_post_decodeTagAndValue (flags : Z) :
  dec_post (decodeTagAndValue flags) header_ok.
Proof.
  intros [buf pos] Hd. unfold cursor_ok in Hd. cbn [dec_buf dec_pos] in Hd.
  destruct (Z.eq_dec pos (len buf)) as [->|Hne].
  { rewrite decodeTagAndValue_end. unfold steps_forward.
    cbn [fst snd dec_buf dec_pos]. split.
    - split; [reflexivity|lia].
    - intros a E. discriminate. }
  destruct (py_index_some buf pos ltac:(lia)) as [hdr Hidx].
  destruct (py_index_split buf pos hdr (proj1 Hd) Hidx)
    as (pre & rest & -> & <-).
  rewrite decodeTagAndValue_header. cbv zeta.
  pose proof (len_nonneg rest) as Hrest.
  pose proof (byte_to_Z_range hdr) as Hhdr.
  pose proof (mask_additional_range (byte_to_Z hdr) (proj1 Hhdr)) as Hadd.
  pose proof (major_mask_in_tags hdr) as Htag.
  set (additional := Z.land (byte_to_Z hdr) Tag.Minor.mask) in *.
  set (tag := Z.land (byte_to_Z hdr) Tag.Major.mask) in *.
  assert (Hlen : len (pre ++ hdr :: rest) = len pre + 1 + len rest)
    by (rewrite len_app, len_cons; lia).
  unfold steps_forward. cbn [dec_buf dec_pos].
  destruct (Z.ltb_spec additional 24) as [Hlt|Hge]; cbn [fst snd dec_buf dec_pos].
  { split; [split; [reflexivity|lia]|].
    intros a E. injection E as <-. unfold header_ok.
  split; [assumption|].
    split; [lia|]. apply Z.lt_trans with 32; [lia|reflexivity]. }
  destruct (Z.leb_spec 28 additional) as [Hbad|Hok];
    cbn [fst snd dec_buf dec_pos].
  { split; [split; [reflexivity|lia]|]. intros a E. discriminate. }
  pose proof (field_width_cases additional ltac:(lia)) as Hw.
  set (w := field_width additional) in *.
  assert (Hwr : 1 <= w <= 8)
    by (simpl In in Hw; destruct Hw as [<- | [<- | [<- | [<- | []]]]]; lia).
  destruct (Z.ltb_spec (len rest) w) as [Hshort|Hlong];
    cbn [fst snd dec_buf dec_pos].
  { split; [split; [reflexivity|lia]|]. intros a E. discriminate. }
  set (value := be_value (firstn (Z.to_nat w) rest)).
  destruct (truthy (Z.land flags Flag.requireMinimalEncoding)
            && (value =? 0)); cbn [fst snd dec_buf dec_pos].
  { split; [split; [reflexivity|lia]|]. intros a E. discriminate. }
  split; [split; [reflexivity|lia]|].
  intros a E. injection E as <-. unfold header_ok.
  split; [assumption|].
  pose proof (be_value_range (firstn (Z.to_nat w) rest)) as Hrange.
  fold value in Hrange.
  assert (Hl : len (firstn (Z.to_nat w) rest) = w).
  { unfold len. rewrite firstn_length_le; unfold len in Hlong; lia. }
  rewrite Hl in Hrange. split; [lia|].
  apply Z.lt_le_trans with (2 ^ (8 * w)); [lia|].
  apply Z.pow_le_mono_r; lia.
Qed.

End Cursor.

Section CursorInvariant.

Ltac post_tail :=
  repeat match goal with
         | |- dec_post (if ?c then _ else _) _ => destruct c
         | |- dec_post (ret _) _ => apply dec_post_ret; exact I
         | |- dec_post (raise _) _ => apply dec_post_raise
         end.

Lemma dec_post_read_payload (byte_length size_length : Z) :
  0 <= byte_length ->
  dec_post (read_payload byte_length size_length) (fun _ => True).
Proof.
  intros Hbl d Hd. unfold cursor_ok in Hd.
  unfold read_payload, bind, buf_len, get_pos, get, advance, ret, raise,
    steps_forward.
  cbn [dec_buf dec_pos].
  destruct (Z.ltb_spec (len (dec_buf d) - dec_pos d) byte_length);
    cbn [fst snd dec_buf dec_pos].
  - split; [split; [reflexivity|lia]|]. intros a E. discriminate.
  - split; [split; [reflexivity|lia]|]. intros a E. exact I.
Qed.

Lemma dec_post_decodeBytes (flags : Z) :
  dec_post (decodeBytes flags) (fun _ => True).
Proof.
  unfold decodeBytes.
  apply (dec_post_bind _ _ header_ok); [apply dec_post_decodeTagAndValue|].
  intros [[tag byte_length] size_length] [_ Hv].
  destruct (negb (tag =? Tag.Major.byteString));
    [apply dec_post_raise|apply dec_post_read_payload; lia].
Qed.

Lemma dec_post_decodeText (flags : Z) :
  dec_post (decodeText flags) (fun _ => True).
Proof.
  unfold decodeText.
  apply (dec_post_bind _ _ header_ok); [apply dec_post_decodeTagAndValue|].
  intros [[tag byte_length] size_length] [_ Hv].
  destruct (negb (tag =? Tag.Major.textString));
    [apply dec_post_raise|apply dec_post_read_payload; lia].
Qed.

Lemma dec_post_decodeEncodedBytes (flags : Z) :
  dec_post (decodeEncodedBytes flags) (fun _ => True).
Proof.
  unfold decodeEncodedBytes.
  apply (dec_post_bind _ _ header_ok); [apply dec_post_decodeTagAndValue|].
  intros [[tag minor_tag] tag_length] _.
  destruct (negb (tag =? Tag.Major.semantic)
            || negb (minor_tag =? Tag.Minor.cborEncodedData));
    [apply dec_post_raise|].
  apply (dec_post_bind _ _ (fun _ => True)); [apply dec_post_decodeBytes|].
  intros [value length] _. apply dec_post_ret. exact I.
Qed.

(** A typed decoder that is one header read and a test on it. *)
Ltac header_then_test :=
  apply (dec_post_bind _ _ header_ok); [apply dec_post_decodeTagAndValue|];
  intros [[? ?] ?] _; post_tail.

(** X3.  Starting with the cursor inside the buffer, every decode
    operation, whether it returns or raises, leaves the buffer as it
    was and the cursor at or after where it started and still inside
    the buffer: no read goes past the end and the cursor never moves
    back. *)
Theorem decoder_cursor_invariant (flags : Z) (d : CBORDecoder) :
  cursor_ok d ->
  steps_forward d (snd (decodeTagAndAdditional flags d))
  /\ steps_forward d (snd (decodeTagAndValue flags d))
  /\ steps_forward d (snd (decodeUnsigned flags d))
  /\ steps_forward d (snd (decodeNegative flags d))
  /\ steps_forward d (snd (decodeInteger flags d))
  /\ steps_forward d (snd (decodeBool flags d))
  /\ steps_forward d (snd (decodeBytes flags d))
  /\ steps_forward d (snd (decodeEncodedBytesPrefix flags d))
  /\ steps_forward d (snd (decodeEncodedBytes flags d))
  /\ steps_forward d (snd (decodeText flags d))
  /\ steps_forward d (snd (decodeArraySize flags d))
  /\ steps_forward d (snd (decodeMapSize flags d)).
Proof.
  intros Hd.
  pose proof (dec_post_decodeTagAndValue flags) as Hhdr.
  assert (Hone : forall A (m : Dec A), dec_post m (fun _ => True) ->
                                       steps_forward d (snd (m d)))
    by (intros A m Hm; apply (Hm d Hd)).
  split.
  { destruct d as [buf pos]. unfold cursor_ok in Hd.
    cbn [dec_buf dec_pos] in Hd.
    destruct (Z.eq_dec pos (len buf)) as [->|Hne].
    - rewrite decodeTagAndAdditional_end. unfold steps_forward.
      cbn [snd dec_buf dec_pos]. split; [reflexivity|lia].
    - destruct (py_index_some buf pos ltac:(lia)) as [hdr Hidx].
      destruct (py_index_split buf pos hdr (proj1 Hd) Hidx)
        as (pre & rest & -> & <-).
      rewrite decodeTagAndAdditional_at. unfold steps_forward.
      cbn [snd dec_buf dec_pos]. rewrite len_app, len_cons.
      pose proof (len_nonneg rest). split; [reflexivity|lia]. }
  split; [apply (Hhdr d Hd)|].
  split; [apply Hone; unfold decodeUnsigned; header_then_test|].
  split; [apply Hone; unfold decodeNegative; header_then_test|].
  split; [apply Hone; unfold decodeInteger; header_then_test|].
  split.
  { unfold decodeBool. destruct (Hhdr d Hd) as [Hs _].
    destruct (decodeTagAndValue flags d) as [[[[tag value] length]|x] d'];
      [|exact Hs].
    destruct (tag =? Tag.Major.simple); [|exact Hs].
    destruct (value =? Minor_true); [exact Hs|].
    destruct (value =? Minor_false); exact Hs. }
  split; [apply Hone, dec_post_decodeBytes|].
  split.
  { unfold decodeEncodedBytesPrefix. destruct (Hhdr d Hd) as [Hs _].
    destruct (decodeTagAndValue flags d) as [[[[tag value] length]|x] d1];
      [|exact Hs].
    destruct (negb (tag =? Tag.Major.semantic)
              || negb (value =? Tag.Minor.cborEncodedData)); [exact Hs|].
    cbn [snd] in Hs. destruct Hs as [Hbuf Hpos].
    assert (Hd1 : cursor_ok d1)
      by (unfold cursor_ok in *; rewrite Hbuf; lia).
    destruct (Hhdr d1 Hd1) as [[Hbuf2 Hpos2] _].
    assert (Hs2 : steps_forward d (snd (decodeTagAndValue flags d1))).
    { split; [congruence|]. rewrite Hbuf in Hpos2. lia. }
    destruct (decodeTagAndValue flags d1)
      as [[[[tag2 value2] length2]|x] d2]; [|exact Hs2].
    destruct (negb (tag2 =? Tag.Major.byteString)); exact Hs2. }
  split; [apply Hone, dec_post_decodeEncodedBytes|].
  split; [apply Hone, dec_post_decodeText|].
  split; [apply Hone; unfold decodeArraySize; header_then_test|].
  apply Hone; unfold decodeMapSize; header_then_test.
Qed.

Lemma decoder_cursor_invariant_witness :
  steps_forward (mkDecoder (bytes_of [0x42; 0x01]) 0)
                (snd (decodeBytes Flag.none
                                  (mkDecoder (bytes_of [0x42; 0x01]) 0))).
Proof.
  assert (Hd : cursor_ok (mkDecoder (bytes_of [0x42; 0x01]) 0))
    by (vm_compute; split; discriminate).
  exact (proj1 (proj2 (proj2 (proj2 (proj2 (proj2 (proj2
           (decoder_cursor_invariant Flag.none _ Hd)))))))).
Defined.

(** X4.  Whatever bytes are under a cursor inside the buffer, a header
    that [decodeTagAndValue] returns carries one of the eight major
    tags and a magnitude in [0, 2^64). *)
Theorem decoded_header_in_range (flags : Z) (d : CBORDecoder)
        (tag value length : Z) :
  cursor_ok d ->
  fst (decodeTagAndValue flags d) = Ok (tag, value, length) ->
  In tag major_tags /\ 0 <= value < 2 ^ 64.
Proof.
  intros Hd E.
  destruct (dec_post_decodeTagAndValue flags d Hd) as [_ HQ].
  exact (HQ _ E).
Qed.

Lemma decoded_header_in_range_witness :
  In Tag.Major.negativeInteger major_tags /\ 0 <= 65535 < 2 ^ 64.
Proof.
  apply (decoded_header_in_range Flag.none
           (mkDecoder (bytes_of [0x39; 0xff; 0xff]) 0)
           Tag.Major.negativeInteger 65535 3).
  - vm_compute. split; discriminate.
  - vm_compute. reflexivity.
Defined.

End CursorInvariant.

(** * Further properties: headers written and read back *)

Section HeaderRoundTrip.

(** On a fresh decoder the third component is the length of the header:
    the cursor and the count of bytes consumed coincide there. *)
Lemma fresh_header (flags tag value : Z) :
  In tag major_tags -> 0 <= value < 2 ^ 64 ->
  let out := header_bytes tag value in
  encode_fresh (encodeTagAndValue tag value)
  = (Ok (1 + get_byte_length value), out)
  /\ decodeTagAndValue flags (new_decoder out)
     = (Ok (tag, value, len out), mkDecoder out (len out)).
Proof.
  intros Htag Hv. cbv zeta.
  destruct (decode_fresh_header_bytes flags tag value Htag Hv)
    as [Henc Hdec].
  split; [exact Henc|]. rewrite Hdec.
  rewrite header_bytes_length by assumption.
  destruct (Z.ltb_spec value 24) as [Hs|Hb]; [|reflexivity].
  rewrite get_byte_length_inline by assumption. reflexivity.
Qed.

(** X5.  A header written by [encodeTagAndValue] after any bytes, and
    followed by any bytes, is read back by [decodeTagAndValue] from the
    cursor where it starts: the same major tag and magnitude come back,
    under any flags, and the cursor ends just past the header. *)
Theorem header_roundtrip_anywhere (flags tag value : Z) (e : CBOREncoder) :
  In tag major_tags -> 0 <= value < 2 ^ 64 ->
  exists (n m : Z) (out : list byte),
    encodeTagAndValue tag value e = (Ok n, mkEncoder (enc_buf e ++ out))
    /\ forall rest : list byte,
         decodeTagAndValue flags
           (mkDecoder (enc_buf e ++ out ++ rest) (len (enc_buf e)))
         = (Ok (tag, value, m),
            mkDecoder (enc_buf e ++ out ++ rest)
                      (len (enc_buf e) + len out)).
Proof.
  intros Htag Hv.
  exists (1 + get_byte_length value),
    (if value <? 24 then 1
     else len (enc_buf e) + 1 + emitted_width (get_byte_length value)),
    (header_bytes tag value).
  split; [apply encodeTagAndValue_ok; assumption|].
  intros rest.
  pose proof (decodeTagAndValue_header_bytes flags tag value (enc_buf e)
                rest Htag Hv) as H.
  cbv zeta in H. rewrite H.
  rewrite header_bytes_length by assumption.
  rewrite Z.add_assoc. reflexivity.
Qed.

Lemma header_roundtrip_anywhere_witness :
  exists (n m : Z) (out : list byte),
    encodeTagAndValue Tag.Major.array 1000 (mkEncoder (bytes_of [0x01]))
    = (Ok n, mkEncoder (bytes_of [0x01] ++ out))
    /\ forall rest : list byte,
         decodeTagAndValue Flag.requireMinimalEncoding
           (mkDecoder (bytes_of [0x01] ++ out ++ rest) (len (bytes_of [0x01])))
         = (Ok (Tag.Major.array, 1000, m),
            mkDecoder (bytes_of [0x01] ++ out ++ rest)
                      (len (bytes_of [0x01]) + len out)).
Proof.
  apply (header_roundtrip_anywhere Flag.requireMinimalEncoding
           Tag.Major.array 1000 (mkEncoder (bytes_of [0x01]))).
  - simpl. auto 10.
  - lia.
Defined.

(** X6.  Two headers written one after the other are read back one
    after the other: the two calls of [decodeTagAndValue] return the
    two tags and magnitudes in order and leave the cursor at the end
    of what was written. *)
Theorem two_headers_roundtrip (flags tag1 value1 tag2 value2 : Z) :
  In tag1 major_tags -> 0 <= value1 < 2 ^ 64 ->
  In tag2 major_tags -> 0 <= value2 < 2 ^ 64 ->
  exists (n : Z) (out : list byte),
    encode_fresh (encodeTagAndValue tag1 value1 ;;;
                  encodeTagAndValue tag2 value2)
    = (Ok n, out)
    /\ decode_fresh
         ('(t1, v1, _) <- decodeTagAndValue flags ;;
          '(t2, v2, _) <- decodeTagAndValue flags ;;
          ret (t1, v1, t2, v2)) out
       = (Ok (tag1, value1, tag2, value2), len out).
Proof.
  intros Ht1 Hv1 Ht2 Hv2.
  exists (1 + get_byte_length value2),
    (header_bytes tag1 value1 ++ header_bytes tag2 value2).
  split.
  - unfold encode_fresh, bind.
    rewrite encodeTagAndValue_ok by assumption.
    rewrite encodeTagAndValue_ok by assumption.
    reflexivity.
  - unfold decode_fresh, bind, new_decoder.
    pose proof (decodeTagAndValue_header_bytes flags tag1 value1 []
                  (header_bytes tag2 value2) Ht1 Hv1) as H1.
    cbv zeta in H1. cbn [app] in H1.
    change (len (@nil byte)) with 0 in H1. rewrite H1. clear H1.
    pose proof (decodeTagAndValue_header_bytes flags tag2 value2
                  (header_bytes tag1 value1) [] Ht2 Hv2) as H2.
    cbv zeta in H2. rewrite app_nil_r in H2.
    replace (0 + 1 + emitted_width (get_byte_length value1))
      with (len (header_bytes tag1 value1))
      by (rewrite header_bytes_length by assumption; lia).
    rewrite H2. clear H2. unfold ret. cbn [dec_pos].
    rewrite len_app, (header_bytes_length tag2 value2) by assumption.
    rewrite Z.add_assoc. reflexivity.
Qed.

Lemma two_headers_roundtrip_witness :
  exists (n : Z) (out : list byte),
    encode_fresh (encodeTagAndValue Tag.Major.array 2 ;;;
                  encodeTagAndValue Tag.Major.unsignedInteger 70000)
    = (Ok n, out)
    /\ decode_fresh
         ('(t1, v1, _) <- decodeTagAndValue Flag.none ;;
          '(t2, v2, _) <- decodeTagAndValue Flag.none ;;
          ret (t1, v1, t2, v2)) out
       = (Ok (Tag.Major.array, 2, Tag.Major.unsignedInteger, 70000),
          len out).
Proof.
  apply (two_headers_roundtrip Flag.none Tag.Major.array 2
           Tag.Major.unsignedInteger 70000).
  - simpl. auto 10.
  - lia.
  - simpl. auto 10.
  - lia.
Defined.

End HeaderRoundTrip.

(** * Further properties: truncated input *)

Section Truncation.

Lemma truncated_field_header (flags tag value : Z) (w j : nat) :
  In tag major_tags -> In (Z.of_nat w) [1; 2; 4; 8] -> (j < w)%nat ->
  let buf := byte_of (tag + indicator (Z.of_nat w))
             :: firstn j (be_bytes w value) in
  decodeTagAndValue flags (new_decoder buf)
  = (Raise NotEnoughInput, mkDecoder buf 1).
Proof.
  intros Htag Hw Hj. cbv zeta. unfold new_decoder.
  pose proof (decodeTagAndValue_header flags []
                (byte_of (tag + indicator (Z.of_nat w)))
                (firstn j (be_bytes w value))) as H.
  cbv zeta in H. cbn [app] in H. change (len (@nil byte)) with 0 in H.
  rewrite H. clear H.
  assert (Hind : 24 <= indicator (Z.of_nat w) <= 27
                 /\ field_width (indicator (Z.of_nat w)) = Z.of_nat w).
  { simpl In in Hw.
    destruct Hw as [<- | [<- | [<- | [<- | []]]]]; vm_compute;
      intuition discriminate. }
  destruct Hind as [Hind Hfw].
  destruct (header_octet_split tag (indicator (Z.of_nat w)) Htag) as [-> ->];
    [lia|].
  rewrite Hfw.
  destruct (Z.ltb_spec (indicator (Z.of_nat w)) 24); [lia|].
  destruct (Z.leb_spec 28 (indicator (Z.of_nat w))); [lia|].
  assert (Hlen : len (firstn j (be_bytes w value)) = Z.of_nat j).
  { unfold len. rewrite firstn_length_le; [reflexivity|].
    rewrite be_bytes_length. lia. }
  rewrite Hlen.
  destruct (Z.ltb_spec (Z.of_nat j) (Z.of_nat w)); [reflexivity|lia].
Qed.

Ltac truncated_case w z :=
  cbn [firstn];
  change (Z.to_nat z) with w;
  match goal with
  | Htag : In ?tag major_tags
    |- context [decodeTagAndValue ?flags
                  (new_decoder (_ :: firstn ?j (be_bytes w ?value)))] =>
      let T := fresh "T" in
      assert (T := truncated_field_header flags tag value w j Htag);
      cbv zeta in T; change (Z.of_nat w) with z in T;
      rewrite T; [reflexivity | simpl; auto | lia]
  end.

(** X7.  Every proper prefix of a header written by [encodeTagAndValue]
    is refused with "Not enough input", the empty prefix included. *)
Theorem truncated_header_not_enough_input (flags tag value : Z) (k : nat) :
  In tag major_tags -> 0 <= value < 2 ^ 64 ->
  Z.of_nat k < len (header_bytes tag value) ->
  fst (decode_fresh (decodeTagAndValue flags)
                    (firstn k (header_bytes tag value)))
  = Raise NotEnoughInput.
Proof.
  intros Htag Hv Hk. unfold decode_fresh.
  destruct k as [|j].
  { cbn [firstn]. unfold new_decoder.
    change 0 with (len (@nil byte)).
    rewrite decodeTagAndValue_end. reflexivity. }
  rewrite header_bytes_length in Hk by assumption.
  unfold header_bytes in *.
  destruct (get_byte_length_cases value Hv)
    as [[H E] | [[H E] | [[H E] | [[H E] | [[H E] | [[H E]
        | [[H E] | [[H E] | [H E]]]]]]]]];
    rewrite E in *; cbv zeta;
    cbn [Z.leb Z.eqb Z.compare Pos.compare Pos.compare_cont
         Pos.eqb andb orb emitted_width] in *;
    try lia.
  - truncated_case 1%nat 1.
  - truncated_case 2%nat 2.
  - truncated_case 4%nat 4.
  - truncated_case 4%nat 4.
  - truncated_case 8%nat 8.
  - truncated_case 8%nat 8.
  - truncated_case 8%nat 8.
  - truncated_case 8%nat 8.
Qed.

Lemma truncated_header_not_enough_input_witness :
  fst (decode_fresh (decodeTagAndValue Flag.none)
                    (firstn 3 (header_bytes Tag.Major.unsignedInteger
                                            70000)))
  = Raise NotEnoughInput.
Proof.
  apply (truncated_header_not_enough_input Flag.none
           Tag.Major.unsignedInteger 70000 3).
  - simpl. auto 10.
  - lia.
  - vm_compute. reflexivity.
Defined.

End Truncation.

(** * Further properties: integers *)

Section Integers.

Lemma In_unsigned : In Tag.Major.unsignedInteger major_tags.
Proof. simpl. auto. Qed.

Lemma In_negative : In Tag.Major.negativeInteger major_tags.
Proof. simpl. auto. Qed.

(** X8.  A magnitude below [2^64] written by [encodeUnsigned] is
    returned by [decodeUnsigned], and one written by [encodeNegative]
    by [decodeNegative]; on a fresh decoder the length returned is the
    number of bytes written, and the cursor ends there. *)
Theorem unsigned_negative_roundtrip (flags value : Z) :
  0 <= value < 2 ^ 64 ->
  (exists (n : Z) (out : list byte),
      encode_fresh (encodeUnsigned value) = (Ok n, out)
      /\ decode_fresh (decodeUnsigned flags) out
         = (Ok (value, len out), len out))
  /\ (exists (n : Z) (out : list byte),
         encode_fresh (encodeNegative value) = (Ok n, out)
         /\ decode_fresh (decodeNegative flags) out
            = (Ok (value, len out), len out)).
Proof.
  intros Hv. split.
  - destruct (fresh_header flags _ value In_unsigned Hv) as [Henc Hdec].
    eexists _, _. split; [exact Henc|].
    unfold decode_fresh, decodeUnsigned, bind. rewrite Hdec. reflexivity.
  - destruct (fresh_header flags _ value In_negative Hv) as [Henc Hdec].
    eexists _, _. split; [exact Henc|].
    unfold decode_fresh, decodeNegative, bind. rewrite Hdec. reflexivity.
Qed.

Lemma unsigned_negative_roundtrip_witness :
  (exists (n : Z) (out : list byte),
      encode_fresh (encodeUnsigned 1000000) = (Ok n, out)
      /\ decode_fresh (decodeUnsigned Flag.none) out
         = (Ok (1000000, len out), len out))
  /\ (exists (n : Z) (out : list byte),
         encode_fresh (encodeNegative 1000000) = (Ok n, out)
         /\ decode_fresh (decodeNegative Flag.none) out
            = (Ok (1000000, len out), len out)).
Proof. apply (unsigned_negative_roundtrip Flag.none 1000000). lia. Defined.

(** X9.  Tag fidelity: what [encodeUnsigned] wrote is refused by
    [decodeNegative], and what [encodeNegative] wrote is refused by
    [decodeUnsigned]; each exception names the tag found, and the
    header has been consumed. *)
Theorem integer_tag_fidelity (flags value : Z) :
  0 <= value < 2 ^ 64 ->
  (exists (n : Z) (out : list byte),
      encode_fresh (encodeUnsigned value) = (Ok n, out)
      /\ decode_fresh (decodeNegative flags) out
         = (Raise (ExpectedNegativeInteger Tag.Major.unsignedInteger),
            len out))
  /\ (exists (n : Z) (out : list byte),
         encode_fresh (encodeNegative value) = (Ok n, out)
         /\ decode_fresh (decodeUnsigned flags) out
            = (Raise (ExpectedUnsignedInteger Tag.Major.negativeInteger),
               len out)).
Proof.
  intros Hv. split.
  - destruct (fresh_header flags _ value In_unsigned Hv) as [Henc Hdec].
    eexists _, _. split; [exact Henc|].
    unfold decode_fresh, decodeNegative, bind. rewrite Hdec. reflexivity.
  - destruct (fresh_header flags _ value In_negative Hv) as [Henc Hdec].
    eexists _, _. split; [exact Henc|].
    unfold decode_fresh, decodeUnsigned, bind. rewrite Hdec. reflexivity.
Qed.

Lemma integer_tag_fidelity_witness :
  (exists (n : Z) (out : list byte),
      encode_fresh (encodeUnsigned 5) = (Ok n, out)
      /\ decode_fresh (decodeNegative Flag.none) out
         = (Raise (ExpectedNegativeInteger Tag.Major.unsignedInteger),
            len out))
  /\ (exists (n : Z) (out : list byte),
         encode_fresh (encodeNegative 5) = (Ok n, out)
         /\ decode_fresh (decodeUnsigned Flag.none) out
            = (Raise (ExpectedUnsignedInteger Tag.Major.negativeInteger),
               len out)).
Proof. apply (integer_tag_fidelity Flag.none 5). lia. Defined.

(** X10.  [decodeInteger] returns a non-negative integer below [2^64]
    written by [encodeInteger] unchanged, and returns [-1 - m] for a
    magnitude [m] written by [encodeNegative]: the integer [x < 0] is
    recovered when it was written as [encodeNegative (-1 - x)]. *)
Theorem decodeInteger_recovers (flags value : Z) :
  0 <= value < 2 ^ 64 ->
  (exists (n : Z) (out : list byte),
      encode_fresh (encodeInteger value) = (Ok n, out)
      /\ decode_fresh (decodeInteger flags) out
         = (Ok (Some (value, len out)), len out))
  /\ (exists (n : Z) (out : list byte),
         encode_fresh (encodeNegative value) = (Ok n, out)
         /\ decode_fresh (decodeInteger flags) out
            = (Ok (Some (-1 - value, len out)), len out)).
Proof.
  intros Hv. split.
  - destruct (fresh_header flags _ value In_unsigned Hv) as [Henc Hdec].
    eexists _, _. split.
    + unfold encodeInteger.
      destruct (Z.geb_spec value 0); [exact Henc|lia].
    + unfold decode_fresh, decodeInteger, bind. rewrite Hdec. reflexivity.
  - destruct (fresh_header flags _ value In_negative Hv) as [Henc Hdec].
    eexists _, _. split; [exact Henc|].
    unfold decode_fresh, decodeInteger, bind. rewrite Hdec. reflexivity.
Qed.

Lemma decodeInteger_recovers_witness :
  (exists (n : Z) (out : list byte),
      encode_fresh (encodeInteger 499) = (Ok n, out)
      /\ decode_fresh (decodeInteger Flag.none) out
         = (Ok (Some (499, len out)), len out))
  /\ (exists (n : Z) (out : list byte),
         encode_fresh (encodeNegative 499) = (Ok n, out)
         /\ decode_fresh (decodeInteger Flag.none) out
            = (Ok (Some (-1 - 499, len out)), len out)).
Proof. apply (decodeInteger_recovers Flag.none 499). lia. Defined.

(** X11.  [encodeInteger] does not encode a negative integer: below
    -32 it raises [ValueError] and appends nothing; from -32 to -1 it
    appends the single octet [32 + value] and returns 1, and
    [decodeInteger] on that octet never returns [value]. *)
Theorem encodeInteger_negative (flags value : Z) (e : CBOREncoder) :
  value < 0 ->
  (value < -32 -> encodeInteger value e = (Raise ValueError, e))
  /\ (-32 <= value ->
      encodeInteger value e
      = (Ok 1, mkEncoder (enc_buf e ++ [byte_of (32 + value)]))
      /\ forall length : Z,
           fst (decode_fresh (decodeInteger flags) [byte_of (32 + value)])
           <> Ok (Some (value, length))).
Proof.
  intros Hneg.
  assert (Henc : encodeInteger value e
                 = ((encodeTagAndAdditional Tag.Major.negativeInteger value
                     ;;; ret tt) ;;; ret 1) e).
  { unfold encodeInteger, encodeNegative, encodeTagAndValue.
    destruct (Z.geb_spec value 0); [lia|].
    rewrite get_byte_length_inline by lia. reflexivity. }
  rewrite Henc. clear Henc.
  unfold bind, encodeTagAndAdditional, append_int, bytearray_append, bind.
  change (Tag.Major.negativeInteger + value) with (32 + value).
  split.
  - intros Hlow. unfold byte_of_Z.
    destruct (Z.ltb_spec (32 + value) 0); [reflexivity|lia].
  - intros Hhigh.
    remember (32 + value) as o eqn:Ho.
    assert (Hrange : 0 <= o < 32) by lia.
    destruct (byte_of_Z_some o ltac:(lia)) as [b [Hb Hbz]].
    unfold byte_of. rewrite Hb. split; [reflexivity|].
    intros length. unfold decode_fresh. rewrite decodeInteger_eq.
    unfold new_decoder.
    pose proof (decodeTagAndValue_header flags [] b []) as H.
    cbv zeta in H. cbn [app] in H. change (len (@nil byte)) with 0 in H.
    rewrite H. clear H.
    destruct (masks_split b) as [-> ->]. rewrite Hbz.
    rewrite (Z.div_small o) by lia.
    rewrite (Z.mod_small o) by lia.
    change (32 * 0) with 0.
    destruct (Z.ltb_spec o 24).
    + cbv beta iota zeta delta [fst].
      change (0 =? Tag.Major.unsignedInteger) with true. cbv iota.
      intros E. assert (E' : o = value) by congruence. lia.
    + destruct (Z.leb_spec 28 o);
        [cbv beta iota zeta delta [fst]; discriminate|].
      assert (Hw : 1 <= field_width o).
      { pose proof (field_width_cases o ltac:(lia)) as Hin.
        simpl In in Hin.
        destruct Hin as [<- | [<- | [<- | [<- | []]]]]; lia. }
      change (len (@nil byte)) with 0.
      destruct (Z.ltb_spec 0 (field_width o)); [|lia].
      cbv beta iota zeta delta [fst]. discriminate.
Qed.

Lemma encodeInteger_negative_witness :
  encodeInteger (-1) new_encoder
  = (Ok 1, mkEncoder (enc_buf new_encoder ++ [byte_of (32 + -1)]))
  /\ forall length : Z,
       fst (decode_fresh (decodeInteger Flag.none) [byte_of (32 + -1)])
       <> Ok (Some (-1, length)).
Proof.
  apply (encodeInteger_negative Flag.none (-1) new_encoder); lia.
Defined.

End Integers.

(** * Further properties: booleans and size headers *)

Section BoolAndSizes.

Lemma In_simple : In Tag.Major.simple major_tags.
Proof. simpl. auto 10. Qed.

(** X12.  A boolean written by [encodeBool] takes one octet, and
    [decodeBool] reads it back with length 1 from wherever it was
    written, whatever follows it, moving the cursor one byte on. *)
Theorem bool_roundtrip (flags : Z) (value : bool) (e : CBOREncoder)
        (rest : list byte) :
  exists octet : byte,
    encodeBool value e = (Ok 1, mkEncoder (enc_buf e ++ [octet]))
    /\ decodeBool flags
         (mkDecoder (enc_buf e ++ [octet] ++ rest) (len (enc_buf e)))
       = (inl (value, 1),
          mkDecoder (enc_buf e ++ [octet] ++ rest) (len (enc_buf e) + 1)).
Proof.
  set (v := if value then Minor_true else Minor_false).
  assert (Hv : 0 <= v < 2 ^ 64)
    by (unfold v; destruct value; vm_compute; split;
        (discriminate || reflexivity)).
  assert (Hsmall : v < 24)
    by (unfold v; destruct value; vm_compute; reflexivity).
  exists (byte_of (Tag.Major.simple + v)).
  assert (Hhb : header_bytes Tag.Major.simple v
                = [byte_of (Tag.Major.simple + v)])
    by (unfold v; destruct value; reflexivity).
  split.
  - unfold encodeBool. fold v.
    rewrite encodeTagAndValue_ok by (apply In_simple || assumption).
    rewrite Hhb, get_byte_length_inline by assumption. reflexivity.
  - pose proof (decodeTagAndValue_header_bytes flags Tag.Major.simple v
                  (enc_buf e) rest In_simple Hv) as H.
    cbv zeta in H. rewrite Hhb in H.
    unfold decodeBool. rewrite H.
    rewrite get_byte_length_inline by assumption.
    destruct (Z.ltb_spec v 24); [|lia].
    change (emitted_width 0) with 0. rewrite Z.add_0_r.
    unfold v. destruct value; reflexivity.
Qed.

(** X13.  [decodeBool] on a header that is not a boolean: a header of
    another major tag raises "Not Simple/Boolean", and a header of the
    simple tag with a magnitude other than 20 and 21 raises "Not a
    Boolean"; on an empty buffer the call raises "Not enough input". *)
Theorem decodeBool_rejects (flags tag value : Z) :
  In tag major_tags -> 0 <= value < 2 ^ 64 ->
  (tag <> Tag.Major.simple ->
   fst (decodeBool flags (new_decoder (header_bytes tag value)))
   = inr NotSimpleBoolean)
  /\ (tag = Tag.Major.simple -> value <> Minor_false ->
      value <> Minor_true ->
      fst (decodeBool flags (new_decoder (header_bytes tag value)))
      = inr NotABoolean)
  /\ fst (decodeBool flags (new_decoder [])) = inr (Base NotEnoughInput).
Proof.
  intros Htag Hv.
  destruct (fresh_header flags tag value Htag Hv) as [_ Hdec].
  cbv zeta in Hdec. unfold decodeBool. rewrite Hdec.
  split; [|split].
  - intros Hne. destruct (Z.eqb_spec tag Tag.Major.simple); [contradiction|].
    reflexivity.
  - intros -> Hf Ht. rewrite Z.eqb_refl.
    destruct (Z.eqb_spec value Minor_true); [contradiction|].
    destruct (Z.eqb_spec value Minor_false); [contradiction|].
    reflexivity.
  - reflexivity.
Qed.

Lemma decodeBool_rejects_witness :
  fst (decodeBool Flag.none
                  (new_decoder (header_bytes Tag.Major.simple 22)))
  = inr NotABoolean.
Proof.
  refine (proj1 (proj2 (decodeBool_rejects Flag.none Tag.Major.simple 22
                          In_simple _)) eq_refl _ _).
  - lia.
  - vm_compute. discriminate.
  - vm_compute. discriminate.
Defined.

(** X14.  An array size below [2^64] written by [encodeArraySize] is
    returned by [decodeArraySize]; on a fresh decoder the length
    returned is the number of bytes written. *)
Theorem array_size_roundtrip (flags c : Z) :
  0 <= c < 2 ^ 64 ->
  exists (n : Z) (out : list byte),
    encode_fresh (encodeArraySize c) = (Ok n, out)
    /\ decode_fresh (decodeArraySize flags) out
       = (Ok (c, len out), len out).
Proof.
  intros Hc.
  assert (Htag : In Tag.Major.array major_tags) by (simpl; auto 10).
  destruct (fresh_header flags _ c Htag Hc) as [Henc Hdec].
  eexists _, _. split; [exact Henc|].
  unfold decode_fresh, decodeArraySize, bind. rewrite Hdec. reflexivity.
Qed.

Lemma array_size_roundtrip_witness :
  exists (n : Z) (out : list byte),
    encode_fresh (encodeArraySize 300) = (Ok n, out)
    /\ decode_fresh (decodeArraySize Flag.none) out
       = (Ok (300, len out), len out).
Proof. apply (array_size_roundtrip Flag.none 300). lia. Defined.

(** X15.  Of the headers [encodeTagAndValue] writes, [decodeMapSize]
    accepts those of the simple/floating-point major tag and no
    others: for every other major tag, the map tag included, it raises
    the "Expected Tag.Major.map" exception naming the tag found. *)
Theorem decodeMapSize_accepts_simple_only (flags tag value : Z) :
  In tag major_tags -> 0 <= value < 2 ^ 64 ->
  exists (n : Z) (out : list byte),
    encode_fresh (encodeTagAndValue tag value) = (Ok n, out)
    /\ decode_fresh (decodeMapSize flags) out
       = (if tag =? Tag.Major.simple then Ok (value, len out)
          else Raise (ExpectedMap tag),
          len out).
Proof.
  intros Htag Hv.
  destruct (fresh_header flags tag value Htag Hv) as [Henc Hdec].
  eexists _, _. split; [exact Henc|].
  unfold decode_fresh, decodeMapSize, bind. rewrite Hdec.
  change Tag.Major.mask with Tag.Major.simple.
  destruct (tag =? Tag.Major.simple); reflexivity.
Qed.

Lemma decodeMapSize_accepts_simple_only_witness :
  exists (n : Z) (out : list byte),
    encode_fresh (encodeTagAndValue Tag.Major.simple 2) = (Ok n, out)
    /\ decode_fresh (decodeMapSize Flag.none) out
       = (if Tag.Major.simple =? Tag.Major.simple then Ok (2, len out)
          else Raise (ExpectedMap Tag.Major.simple),
          len out).
Proof.
  apply (decodeMapSize_accepts_simple_only Flag.none Tag.Major.simple 2).
  - exact In_simple.
  - lia.
Defined.

End BoolAndSizes.

(** * Further properties: byte strings and text strings *)

Section Strings.

Lemma In_byteString : In Tag.Major.byteString major_tags.
Proof. simpl. auto 10. Qed.

Lemma In_textString : In Tag.Major.textString major_tags.
Proof. simpl. auto 10. Qed.

(** X16.  A byte string written by [encodeBytes] after any bytes, and
    followed by any bytes, is returned by [decodeBytes] from the cursor
    where it starts, and the cursor ends just past it; when nothing
    precedes it the length returned is the number of bytes written. *)
Theorem bytes_roundtrip (flags : Z) (value : list byte) (e : CBOREncoder)
        (rest : list byte) :
  len value < 2 ^ 64 ->
  exists (n m : Z) (out : list byte),
    encodeBytes value e = (Ok n, mkEncoder (enc_buf e ++ out))
    /\ decodeBytes flags
         (mkDecoder (enc_buf e ++ out ++ rest) (len (enc_buf e)))
       = (Ok (value, m),
          mkDecoder (enc_buf e ++ out ++ rest) (len (enc_buf e) + len out))
    /\ (enc_buf e = [] -> m = len out).
Proof.
  intros Hlen. pose proof (len_nonneg value) as Hnn.
  set (hdr := header_bytes Tag.Major.byteString (len value)).
  set (w := emitted_width (get_byte_length (len value))).
  assert (Hhdr : len hdr = 1 + w) by (apply header_bytes_length; lia).
  exists (1 + get_byte_length (len value) + len value),
    ((if len value <? 24 then 1 else len (enc_buf e) + 1 + w) + len value),
    (hdr ++ value).
  split; [apply encodeBytes_ok; assumption|].
  split.
  - pose proof (decodeBytes_encoded flags (enc_buf e) value rest Hlen) as H.
    cbv zeta in H. fold hdr in H. fold w in H.
    rewrite <- app_assoc. rewrite H.
    rewrite len_app, Hhdr.
    replace (len (enc_buf e) + 1 + w + len value)
      with (len (enc_buf e) + (1 + w + len value)) by lia.
    reflexivity.
  - intros ->. rewrite len_app, Hhdr. change (len (@nil byte)) with 0.
    destruct (Z.ltb_spec (len value) 24) as [Hs|Hb]; [|lia].
    assert (Hw : w = 0)
      by (unfold w; rewrite get_byte_length_inline by assumption;
          reflexivity).
    lia.
Qed.

Lemma bytes_roundtrip_witness :
  exists (n m : Z) (out : list byte),
    encodeBytes (bytes_of [1; 2; 3]) new_encoder
    = (Ok n, mkEncoder (enc_buf new_encoder ++ out))
    /\ decodeBytes Flag.none
         (mkDecoder (enc_buf new_encoder ++ out ++ [])
                    (len (enc_buf new_encoder)))
       = (Ok (bytes_of [1; 2; 3], m),
          mkDecoder (enc_buf new_encoder ++ out ++ [])
                    (len (enc_buf new_encoder) + len out))
    /\ (enc_buf new_encoder = [] -> m = len out).
Proof.
  apply (bytes_roundtrip Flag.none (bytes_of [1; 2; 3]) new_encoder []).
  vm_compute. reflexivity.
Defined.

(** X17.  A byte string whose payload is cut short is refused with
    "Not enough input": the header is consumed, none of the payload
    is. *)
Theorem truncated_payload_not_enough_input (flags : Z) (value : list byte)
        (k : nat) :
  len value < 2 ^ 64 -> (k < length value)%nat ->
  let hdr := header_bytes Tag.Major.byteString (len value) in
  decode_fresh (decodeBytes flags) (hdr ++ firstn k value)
  = (Raise NotEnoughInput, len hdr).
Proof.
  intros Hlen Hk. cbv zeta. pose proof (len_nonneg value) as Hnn.
  assert (Hv : 0 <= len value < 2 ^ 64) by lia.
  set (hdr := header_bytes Tag.Major.byteString (len value)).
  assert (Hhdr : len hdr
                 = 1 + emitted_width (get_byte_length (len value)))
    by (apply header_bytes_length; lia).
  unfold decode_fresh, decodeBytes, bind, new_decoder.
  pose proof (decodeTagAndValue_header_bytes flags Tag.Major.byteString
                (len value) [] (firstn k value) In_byteString Hv) as H.
  cbv zeta in H. cbn [app] in H. change (len (@nil byte)) with 0 in H.
  fold hdr in H. rewrite H. clear H.
  rewrite Z.eqb_refl. cbn [negb].
  unfold read_payload, bind, buf_len, get_pos, raise.
  cbn [dec_buf dec_pos]. rewrite len_app, Hhdr.
  assert (Hf : len (firstn k value) = Z.of_nat k)
    by (unfold len; rewrite firstn_length_le; lia).
  rewrite Hf.
  match goal with
  | |- context [?a <? len value] =>
      destruct (Z.ltb_spec a (len value)) as [Hs|Hl]
  end.
  - cbn [dec_pos]. first [reflexivity | f_equal; lia].
  - unfold len in Hl. lia.
Qed.

Lemma truncated_payload_not_enough_input_witness :
  decode_fresh (decodeBytes Flag.none)
    (header_bytes Tag.Major.byteString (len (bytes_of [1; 2; 3]))
     ++ firstn 2 (bytes_of [1; 2; 3]))
  = (Raise NotEnoughInput,
     len (header_bytes Tag.Major.byteString (len (bytes_of [1; 2; 3])))).
Proof.
  apply (truncated_payload_not_enough_input Flag.none
           (bytes_of [1; 2; 3]) 2).
  - vm_compute. reflexivity.
  - vm_compute. lia.
Defined.

(** X18.  [decodeText] returns the payload of a text string, that is a
    text-string header carrying the payload length followed by the
    payload; it refuses a byte string with "Not a textString", and
    [decodeBytes] refuses a text string with "Not a byteString". *)
Theorem text_and_bytes_do_not_cross (flags : Z) (value : list byte) :
  len value < 2 ^ 64 ->
  (exists out : list byte,
      encode_fresh (encodeTagAndValue Tag.Major.textString (len value) ;;;
                    bytearray_extend value)
      = (Ok tt, out)
      /\ decode_fresh (decodeText flags) out
         = (Ok (value, len out), len out)
      /\ fst (decode_fresh (decodeBytes flags) out) = Raise NotAByteString)
  /\ (exists (n : Z) (out : list byte),
         encode_fresh (encodeBytes value) = (Ok n, out)
         /\ fst (decode_fresh (decodeText flags) out)
            = Raise NotATextString).
Proof.
  intros Hlen. pose proof (len_nonneg value) as Hnn.
  assert (Hv : 0 <= len value < 2 ^ 64) by lia.
  split.
  - set (hdr := header_bytes Tag.Major.textString (len value)).
    assert (Hhdr : len hdr
                   = 1 + emitted_width (get_byte_length (len value)))
      by (apply header_bytes_length; lia).
    exists (hdr ++ value).
    pose proof (decodeTagAndValue_header_bytes flags Tag.Major.textString
                  (len value) [] value In_textString Hv) as H.
    cbv zeta in H. cbn [app] in H. change (len (@nil byte)) with 0 in H.
    fold hdr in H.
    split; [|split].
    + unfold encode_fresh, bind, bytearray_extend.
      rewrite encodeTagAndValue_ok by (apply In_textString || assumption).
      reflexivity.
    + unfold decode_fresh, decodeText, bind, new_decoder. rewrite H.
      rewrite Z.eqb_refl. cbn [negb].
      pose proof (read_payload_ok hdr value []) as Hp.
      rewrite app_nil_r in Hp.
      replace (0 + 1 + emitted_width (get_byte_length (len value)))
        with (len hdr) by lia.
      rewrite Hp. cbn [dec_pos]. rewrite len_app.
      destruct (Z.ltb_spec (len value) 24) as [Hs|Hb]; [|reflexivity].
      rewrite Hhdr, get_byte_length_inline by assumption. reflexivity.
    + unfold decode_fresh, decodeBytes, bind, new_decoder. rewrite H.
      reflexivity.
  - exists (1 + get_byte_length (len value) + len value),
      (header_bytes Tag.Major.byteString (len value) ++ value).
    split.
    + unfold encode_fresh. rewrite encodeBytes_ok by assumption.
      reflexivity.
    + pose proof (decodeTagAndValue_header_bytes flags Tag.Major.byteString
                    (len value) [] value In_byteString Hv) as H.
      cbv zeta in H. cbn [app] in H. change (len (@nil byte)) with 0 in H.
      unfold decode_fresh, decodeText, bind, new_decoder. rewrite H.
      reflexivity.
Qed.

Lemma text_and_bytes_do_not_cross_witness :
  (exists out : list byte,
      encode_fresh (encodeTagAndValue Tag.Major.textString
                                      (len (bytes_of [0x61; 0x62])) ;;;
                    bytearray_extend (bytes_of [0x61; 0x62]))
      = (Ok tt, out)
      /\ decode_fresh (decodeText Flag.none) out
         = (Ok (bytes_of [0x61; 0x62], len out), len out)
      /\ fst (decode_fresh (decodeBytes Flag.none) out)
         = Raise NotAByteString)
  /\ (exists (n : Z) (out : list byte),
         encode_fresh (encodeBytes (bytes_of [0x61; 0x62])) = (Ok n, out)
         /\ fst (decode_fresh (decodeText Flag.none) out)
            = Raise NotATextString).
Proof.
  apply (text_and_bytes_do_not_cross Flag.none (bytes_of [0x61; 0x62])).
  vm_compute. reflexivity.
Defined.

(** X19.  On what [encodeEncodedBytes] wrote,
    [decodeEncodedBytesPrefix] returns the byte-string tag and the
    payload length and stops at the first payload byte: the payload is
    the rest of the buffer from the cursor.  On a byte string without
    the semantic header it raises "Not CBOR Encoded Data", as
    [decodeEncodedBytes] does. *)
Theorem encoded_bytes_prefix (flags : Z) (value : list byte) :
  len value < 2 ^ 64 ->
  (exists (n m : Z) (out : list byte),
      encode_fresh (encodeEncodedBytes value) = (Ok n, out)
      /\ decodeEncodedBytesPrefix flags (new_decoder out)
         = (inl (Tag.Major.byteString, len value, m),
            mkDecoder out (len out - len value))
      /\ py_slice out (len out - len value) (len out) = value)
  /\ (exists (n : Z) (out : list byte),
         encode_fresh (encodeBytes value) = (Ok n, out)
         /\ fst (decodeEncodedBytesPrefix flags (new_decoder out))
            = inr (Base NotCBOREncodedData)
         /\ fst (decode_fresh (decodeEncodedBytes flags) out)
            = Raise NotCBOREncodedData).
Proof.
  intros Hlen. pose proof (len_nonneg value) as Hnn.
  assert (Hv : 0 <= len value < 2 ^ 64) by lia.
  assert (Hsem : In Tag.Major.semantic major_tags) by (simpl; auto 10).
  assert (H24 : 0 <= Tag.Minor.cborEncodedData < 2 ^ 64)
    by (vm_compute; split; [discriminate|reflexivity]).
  set (outer := header_bytes Tag.Major.semantic Tag.Minor.cborEncodedData).
  set (inner := header_bytes Tag.Major.byteString (len value)).
  set (w := emitted_width (get_byte_length (len value))).
  assert (Hinner : len inner = 1 + w)
    by (apply header_bytes_length; lia).
  split.
  - exists (1 + get_byte_length Tag.Minor.cborEncodedData
            + (1 + get_byte_length (len value) + len value)),
      (2 + (if len value <? 24 then 1 else 2 + 1 + w)),
      (outer ++ inner ++ value).
    split; [|split].
    + unfold encode_fresh, encodeEncodedBytes, bind, ret.
      rewrite encodeTagAndValue_ok by assumption.
      rewrite encodeBytes_ok by assumption.
      cbn [enc_buf new_encoder get_bytes app]. reflexivity.
    + unfold decodeEncodedBytesPrefix, new_decoder.
      pose proof (decodeTagAndValue_header_bytes flags Tag.Major.semantic
                    Tag.Minor.cborEncodedData [] (inner ++ value)
                    Hsem H24) as H1.
      cbv zeta in H1. cbn [app] in H1. fold outer in H1.
      change (len (@nil byte)) with 0 in H1.
      rewrite H1. clear H1.
      change (negb (Tag.Major.semantic =? Tag.Major.semantic)
              || negb (Tag.Minor.cborEncodedData
                       =? Tag.Minor.cborEncodedData)) with false.
      cbv iota.
      change (0 + 1 + emitted_width
                        (get_byte_length Tag.Minor.cborEncodedData))
        with (len outer).
      pose proof (decodeTagAndValue_header_bytes flags Tag.Major.byteString
                    (len value) outer value In_byteString Hv) as H2.
      cbv zeta in H2. fold inner in H2. fold w in H2.
      rewrite H2. clear H2.
      rewrite Z.eqb_refl. cbn [negb].
      change (Tag.Minor.cborEncodedData <? 24) with false. cbv iota.
      rewrite !len_app, Hinner. change (len outer) with 2.
      replace (2 + (1 + w + len value) - len value) with (2 + 1 + w)
        by lia.
      reflexivity.
    + replace (outer ++ inner ++ value)
        with ((outer ++ inner) ++ value ++ [])
        by (rewrite app_nil_r, app_assoc; reflexivity).
      rewrite !len_app. change (len (@nil byte)) with 0.
      replace (len outer + len inner + (len value + 0) - len value)
        with (len (outer ++ inner)) by (rewrite len_app; lia).
      replace (len outer + len inner + (len value + 0))
        with (len (outer ++ inner) + len value) by (rewrite len_app; lia).
      apply py_slice_middle.
  - exists (1 + get_byte_length (len value) + len value), (inner ++ value).
    pose proof (decodeTagAndValue_header_bytes flags Tag.Major.byteString
                  (len value) [] value In_byteString Hv) as H.
    cbv zeta in H. cbn [app] in H. change (len (@nil byte)) with 0 in H.
    fold inner in H.
    split; [|split].
    + unfold encode_fresh. rewrite encodeBytes_ok by assumption.
      reflexivity.
    + unfold decodeEncodedBytesPrefix, new_decoder. rewrite H. reflexivity.
    + unfold decode_fresh, decodeEncodedBytes, bind, new_decoder.
      rewrite H. reflexivity.
Qed.

Lemma encoded_bytes_prefix_witness :
  (exists (n m : Z) (out : list byte),
      encode_fresh (encodeEncodedBytes (bytes_of [7; 8])) = (Ok n, out)
      /\ decodeEncodedBytesPrefix Flag.none (new_decoder out)
         = (inl (Tag.Major.byteString, len (bytes_of [7; 8]), m),
            mkDecoder out (len out - len (bytes_of [7; 8])))
      /\ py_slice out (len out - len (bytes_of [7; 8])) (len out)
         = bytes_of [7; 8])
  /\ (exists (n : Z) (out : list byte),
         encode_fresh (encodeBytes (bytes_of [7; 8])) = (Ok n, out)
         /\ fst (decodeEncodedBytesPrefix Flag.none (new_decoder out))
            = inr (Base NotCBOREncodedData)
         /\ fst (decode_fresh (decodeEncodedBytes Flag.none) out)
            = Raise NotCBOREncodedData).
Proof.
  apply (encoded_bytes_prefix Flag.none (bytes_of [7; 8])).
  vm_compute. reflexivity.
Defined.

End Strings.
